(** * MySQLConnectorPool: the pool and the retry protocol of [useMySQL.py]

    A shallow embedding of [MySQLDatabase] (src/useMySQL.py): the
    constructor, the connection factory [create_conn], the pool
    operations [get_conn], [release_conn] and [close_all_connections],
    the executor [execute] and the batch helpers [batch_insert] and
    [batch_update], followed by the properties of the specification that
    concern them and by further properties of the code.

    The program talks to three collaborators that are not part of it: the
    pymysql driver, [queue.Queue] and [time.sleep].  The driver is an
    oracle (what the k-th call of each driver entry point answers), the
    queue is a list with the bound of [queue.Queue], [time.sleep] accepts
    or rejects a delay as CPython does, delays are binary64 floats as
    Python's are, and every effect is recorded as an event, in program
    order. *)

From Stdlib Require Import ZArith List String Bool Arith Lia.
From Stdlib Require Import PrimFloat.
Import ListNotations.

Local Open Scope Z_scope.
Set Warnings "-register-all".

(** ** Values, exceptions, events *)

(** Python values that travel as statement parameters and results. *)
Inductive PyVal : Type :=
| VNone
| VBool (b : bool)
| VInt (z : Z)
| VStr (s : string)
| VList (l : list PyVal).

(** A connection object, named by the order in which pymysql opened it. *)
Definition Conn := nat.

(** The exceptions that reach the program.  [OperationalError] is
    pymysql.OperationalError; [OtherMySQLError] is any other subclass of
    pymysql.MySQLError (ProgrammingError, IntegrityError, DataError, ...);
    [OtherException] is an Exception outside pymysql's hierarchy.  The
    last two are the program's own classes (lines 21-29); both derive
    from Exception, not from MySQLError. *)
Inductive Exn : Type :=
| OperationalError (msg : string)
| OtherMySQLError (msg : string)
| OtherException (msg : string)
| DatabaseConnectionError (host : string) (port : Z)
| DatabaseOperationFailed (sql : string) (params : PyVal).

(** [except pymysql.OperationalError] *)
Definition is_OperationalError (e : Exn) : bool :=
  match e with
  | OperationalError _ => true
  | _ => false
  end.

(** [except pymysql.MySQLError] *)
Definition is_MySQLError (e : Exn) : bool :=
  match e with
  | OperationalError _ | OtherMySQLError _ => true
  | _ => false
  end.

(** The two places that call [time.sleep]: line 63 and line 119. *)
Inductive SleepSite : Type := InCreateConn | InExecute.

(** The five [logger.error] calls, lines 65, 76, 105, 109 and 113. *)
Inductive LogMsg : Type :=
| LogConnectFailed (retries_left : Z) (e : Exn)
| LogConnectionLost (e : Exn)
| LogConnectionError (e : Exn)
| LogMySQLError (e : Exn) (sql : string) (params : PyVal)
| LogUnexpected (e : Exn) (sql : string) (params : PyVal).

Inductive Event : Type :=
| EvConnect (r : Exn + Conn)              (* pymysql.connect(...) *)
| EvSleep (site : SleepSite) (d : float)  (* time.sleep(d) returned *)
| EvSleepError (site : SleepSite) (d : float) (e : Exn)
                                          (* time.sleep(d) raised e *)
| EvLog (m : LogMsg)                      (* logger.error(...) *)
| EvGet (c : Conn)                        (* self.pool.get() returned c *)
| EvPing (c : Conn) (r : option Exn)      (* c.ping(reconnect=True) *)
| EvClose (c : Conn)                      (* c.close() *)
| EvPut (c : Conn)                        (* self.pool.put(c) *)
| EvPutNowait (c : Conn) (queued : bool)  (* self.pool.put_nowait(c); false: Full *)
| EvExecute (c : Conn) (sql : string) (params : PyVal) (r : option Exn)
| EvFetchall (c : Conn) (r : Exn + PyVal)
| EvCommit (c : Conn) (r : option Exn).

(** ** Configuration, driver, state *)

(** The fields [__init__] stores (lines 34-42).  [retry_backoff_base] is
    a Python float, as its default 1.5 is: a binary64 number, of either
    sign, possibly infinite or NaN.  It is the first delay and the
    backoff multiplier at once. *)
Record Config : Type := mkConfig {
  host : string;
  port : Z;
  pool_size : Z;
  retry_backoff_base : float
}.

(** What the database server and the network answer.  Each entry point of
    the driver is indexed by the number of earlier calls of that entry
    point, so that any behaviour of the environment along one run is some
    [Driver].  [None] and [inr] are normal returns, [Some] and [inl] the
    exception raised.  [fetchall], [lastrowid] and [commit] are indexed
    like [cursor_execute]: an attempt uses each at most once, after its
    own [cursor.execute]. *)
Record Driver : Type := mkDriver {
  connect : nat -> option Exn;
  ping : nat -> option Exn;
  cursor_execute : nat -> option Exn;
  fetchall : nat -> Exn + PyVal;
  lastrowid : nat -> PyVal;
  commit : nat -> option Exn
}.

(** [self.pool] and the counters that index the driver. *)
Record World : Type := mkWorld {
  pool : list Conn;
  opened : nat;       (* connections opened so far; the next one's name *)
  connects : nat;     (* calls of pymysql.connect so far *)
  pings : nat;        (* calls of ping so far *)
  statements : nat    (* calls of cursor.execute so far *)
}.

Definition set_pool (q : list Conn) (w : World) : World :=
  mkWorld q (opened w) (connects w) (pings w) (statements w).

(** ** Computations: state, exceptions, blocking, and the event log *)

Inductive Outcome (A : Type) : Type :=
| Return (a : A)
| Raise (e : Exn)
| Blocked.        (* the call never returns: [Queue.get] on an empty queue *)
Arguments Return {A} a.
Arguments Raise {A} e.
Arguments Blocked {A}.

Record Run (A : Type) : Type := mkRun {
  outcome : Outcome A;
  final : World;
  events : list Event
}.
Arguments mkRun {A} _ _ _.
Arguments outcome {A} _.
Arguments final {A} _.
Arguments events {A} _.

Definition M (A : Type) : Type := World -> Run A.

Definition ret {A} (a : A) : M A := fun w => mkRun (Return a) w [].
Definition raise {A} (e : Exn) : M A := fun w => mkRun (Raise e) w [].
Definition block {A} : M A := fun w => mkRun Blocked w [].
Definition emit (ev : Event) : M unit := fun w => mkRun (Return tt) w [ev].

Definition bind {A B} (m : M A) (f : A -> M B) : M B :=
  fun w =>
    let r := m w in
    match outcome r with
    | Return a =>
        let r' := f a (final r) in
        mkRun (outcome r') (final r') (events r ++ events r')
    | Raise e => mkRun (Raise e) (final r) (events r)
    | Blocked => mkRun Blocked (final r) (events r)
    end.

(** [try: m  except Exception as e: h e] *)
Definition try_catch {A} (m : M A) (h : Exn -> M A) : M A :=
  fun w =>
    let r := m w in
    match outcome r with
    | Raise e =>
        let r' := h e (final r) in
        mkRun (outcome r') (final r') (events r ++ events r')
    | _ => r
    end.

Declare Scope pool_scope.
Delimit Scope pool_scope with pool.
Notation "x <- m ;; k" := (bind m (fun x => k))
  (at level 61, m at next level, right associativity) : pool_scope.
Notation "m ;; k" := (bind m (fun _ => k))
  (at level 61, right associativity) : pool_scope.
Local Open Scope pool_scope.

Section Database.

Variable cfg : Config.
Variable drv : Driver.

(** ** The collaborators *)

(** What [time.sleep(d)] raises, if anything, for a float [d] (CPython,
    Modules/timemodule.c and Python/pytime.c): ValueError for NaN;
    OverflowError when [d * 1e9], the delay in nanoseconds, does not fit
    a signed 64-bit integer, that is from about 9.2e9 seconds on;
    ValueError for a negative delay. *)
Definition time_sleep_error (d : float) : option Exn :=
  if is_nan d then Some (OtherException "ValueError")
  else
    let ns := (d * 1e9)%float in
    if (ns <? -9223372036854775808)%float
       || negb (ns <? 9223372036854775808)%float
    then Some (OtherException "OverflowError")
    else if (d <? 0)%float then Some (OtherException "ValueError")
    else None.

(** [time.sleep(d)] *)
Definition sleep (site : SleepSite) (d : float) : M unit :=
  fun w =>
    match time_sleep_error d with
    | Some e => mkRun (Raise e) w [EvSleepError site d e]
    | None => mkRun (Return tt) w [EvSleep site d]
    end.

Definition log (m : LogMsg) : M unit := emit (EvLog m).

(** [pymysql.connect(host=..., ...)], lines 51-59. *)
Definition pymysql_connect : M Conn :=
  fun w =>
    let w' := mkWorld (pool w) (opened w) (S (connects w)) (pings w) (statements w) in
    match connect drv (connects w) with
    | Some e => mkRun (Raise e) w' [EvConnect (inl e)]
    | None =>
        let c := opened w in
        mkRun (Return c)
              (mkWorld (pool w) (S c) (S (connects w)) (pings w) (statements w))
              [EvConnect (inr c)]
    end.

(** [conn.ping(reconnect=True)] *)
Definition conn_ping (c : Conn) : M unit :=
  fun w =>
    let w' := mkWorld (pool w) (opened w) (connects w) (S (pings w)) (statements w) in
    match ping drv (pings w) with
    | Some e => mkRun (Raise e) w' [EvPing c (Some e)]
    | None => mkRun (Return tt) w' [EvPing c None]
    end.

(** [conn.close()] *)
Definition conn_close (c : Conn) : M unit := emit (EvClose c).

(** [Queue(maxsize)]: "if maxsize is less than or equal to zero, the queue
    size is infinite"; otherwise the queue is full once it holds
    [maxsize] items. *)
Definition queue_full (maxsize : Z) (q : list Conn) : bool :=
  (0 <? maxsize) && (maxsize <=? Z.of_nat (List.length q)).

(** [self.pool.get()]: blocks while the queue is empty. *)
Definition pool_get : M Conn :=
  fun w =>
    match pool w with
    | [] => mkRun Blocked w []
    | c :: q => mkRun (Return c) (set_pool q w) [EvGet c]
    end.

(** [self.pool.put(conn)]: blocks while the queue is full. *)
Definition pool_put (c : Conn) : M unit :=
  fun w =>
    if queue_full (pool_size cfg) (pool w) then mkRun Blocked w []
    else mkRun (Return tt) (set_pool (pool w ++ [c]) w) [EvPut c].

(** [self.pool.put_nowait(conn)]; [false] stands for the exception [Full]. *)
Definition pool_put_nowait (c : Conn) : M bool :=
  fun w =>
    if queue_full (pool_size cfg) (pool w)
    then mkRun (Return false) w [EvPutNowait c false]
    else mkRun (Return true) (set_pool (pool w ++ [c]) w) [EvPutNowait c true].

(** [self.pool.empty()] *)
Definition pool_empty : M bool :=
  fun w => mkRun (Return (match pool w with [] => true | _ => false end)) w [].

(** ** create_conn, lines 47-67 *)

(** The [while retries > 0] loop; [retries] counts down to 0, so the loop
    is a recursion on it.  A result of [None] is Python's [None], the
    value of a function that falls off its end.  An exception of
    [time.sleep] at line 63 leaves the handler, and the function, at
    once. *)
Fixpoint create_conn_loop (retries : nat) (delay : float) : M (option Conn) :=
  match retries with
  | O => ret None
  | S retries' =>
      try_catch
        (conn <- pymysql_connect ;; ret (Some conn))
        (fun e =>
           if is_MySQLError e then
             sleep InCreateConn delay ;;
             log (LogConnectFailed (Z.of_nat retries') e) ;;
             match retries' with
             | O => raise (DatabaseConnectionError (host cfg) (port cfg))
             | S _ => create_conn_loop retries' (delay * retry_backoff_base cfg)%float
             end
           else raise e)
  end.

Definition create_conn (retries : Z) : M (option Conn) :=
  create_conn_loop (Z.to_nat retries) (retry_backoff_base cfg).

(** ** get_conn, lines 69-79 *)

(** One turn of the [while True] loop takes one connection out of the
    queue and nothing puts one back, so the loop is a recursion on the
    queue [q], which is [pool w] at every turn. *)
Fixpoint get_conn_loop (q : list Conn) : M (option Conn) :=
  match q with
  | [] => block
  | _ :: q' =>
      conn <- pool_get ;;
      try_catch
        (conn_ping conn ;; ret (Some conn))
        (fun e =>
           log (LogConnectionLost e) ;;
           conn_close conn ;;
           empty <- pool_empty ;;
           if empty then create_conn 3 else get_conn_loop q')
  end.

Definition get_conn : M (option Conn) :=
  fun w => get_conn_loop (pool w) w.

(** ** release_conn, lines 81-85 *)

Definition release_conn (c : Conn) : M unit :=
  queued <- pool_put_nowait c ;;
  if queued then ret tt else conn_close c.

(** ** __init__, lines 43-45 *)

Fixpoint fill_pool (n : nat) : M unit :=
  match n with
  | O => ret tt
  | S n' =>
      conn <- create_conn 3 ;;
      match conn with
      | Some c => pool_put c ;; fill_pool n'
      | None => raise (OtherException "None in pool")
      end
  end.

Definition empty_world : World := mkWorld [] 0 0 0 0.

Definition init : Run unit := fill_pool (Z.to_nat (pool_size cfg)) empty_world.

(** ** execute, lines 87-123 *)

Section Execute.

Variable sql : string.
Variable params : PyVal.
Variable fetch : bool.
Variable want_lastrowid : bool.

(** [cursor.execute(sql, params)], line 94; gives the index of the call. *)
Definition driver_execute (c : Conn) : M nat :=
  fun w =>
    let k := statements w in
    let w' := mkWorld (pool w) (opened w) (connects w) (pings w) (S k) in
    match cursor_execute drv k with
    | Some e => mkRun (Raise e) w' [EvExecute c sql params (Some e)]
    | None => mkRun (Return k) w' [EvExecute c sql params None]
    end.

(** [cursor.fetchall()], line 96. *)
Definition driver_fetchall (c : Conn) (k : nat) : M PyVal :=
  fun w =>
    match fetchall drv k with
    | inl e => mkRun (Raise e) w [EvFetchall c (inl e)]
    | inr rows => mkRun (Return rows) w [EvFetchall c (inr rows)]
    end.

(** [conn.commit()], line 101. *)
Definition driver_commit (c : Conn) (k : nat) : M unit :=
  fun w =>
    match commit drv k with
    | Some e => mkRun (Raise e) w [EvCommit c (Some e)]
    | None => mkRun (Return tt) w [EvCommit c None]
    end.

(** Lines 93-102, once [conn] is bound. *)
Definition issue (c : Conn) : M PyVal :=
  k <- driver_execute c ;;
  result <- (if fetch then driver_fetchall c k
             else if want_lastrowid then ret (lastrowid drv k)
             else ret (VBool true)) ;;
  driver_commit c k ;;
  ret result.

(** The [try] block, lines 92-102, with the value the variable [conn]
    has when the block is left: [None] (line 90) unless [get_conn]
    returned.  Were [get_conn] to return Python's [None], line 93 would
    raise AttributeError. *)
Definition try_block (w : World) : option Conn * Run PyVal :=
  let r := get_conn w in
  match outcome r with
  | Return (Some c) =>
      let r' := issue c (final r) in
      (Some c, mkRun (outcome r') (final r') (events r ++ events r'))
  | Return None =>
      (None, mkRun (Raise (OtherException "AttributeError")) (final r) (events r))
  | Raise e => (None, mkRun (Raise e) (final r) (events r))
  | Blocked => (None, mkRun Blocked (final r) (events r))
  end.

(** The [except] clauses, lines 103-114: what each logs.  Whether the
    exception is swallowed (line 103) or raised again (lines 110, 114) is
    decided in [execute_loop]. *)
Definition handler (e : Exn) : M unit :=
  if is_OperationalError e then log (LogConnectionError e)
  else if is_MySQLError e then log (LogMySQLError e sql params)
  else log (LogUnexpected e sql params).

(** The [finally] clause, lines 115-120.  The updates of the locals
    [retries] and [delay] are made by [execute_loop].  The clause raises
    when [time.sleep] does. *)
Definition finally_block (conn : option Conn) (delay : float) : M unit :=
  match conn with
  | Some c => release_conn c
  | None => ret tt
  end ;;
  sleep InExecute delay.

(** One turn of the [while] loop, lines 90-120. *)
Record Attempt : Type := mkAttempt {
  att_conn : option Conn;      (* [conn] when the [try] block was left *)
  att_body : Outcome PyVal;    (* how the [try] block was left *)
  att_raised : option Exn;     (* what the [finally] clause raised, if anything *)
  att_final : World;
  att_events : list Event
}.

(** What the [finally] clause raised. *)
Definition raised {A} (o : Outcome A) : option Exn :=
  match o with
  | Raise e => Some e
  | _ => None
  end.

Definition attempt (delay : float) (w : World) : Attempt :=
  let (conn, r) := try_block w in
  match outcome r with
  | Return v =>
      let f := finally_block conn delay (final r) in
      mkAttempt conn (Return v) (raised (outcome f)) (final f)
                (events r ++ events f)
  | Raise e =>
      let h := handler e (final r) in
      let f := finally_block conn delay (final h) in
      mkAttempt conn (Raise e) (raised (outcome f)) (final f)
                (events r ++ events h ++ events f)
  | Blocked => mkAttempt conn Blocked None (final r) (events r)
  end.

(** The [while retries > 0] loop and line 123.  An exception raised by
    the [finally] clause replaces whatever the turn was about to do: it
    leaves the function.  Otherwise a turn that returns (line 102) or
    raises again (lines 110, 114) leaves the function once its [finally]
    clause has run, and a turn that swallowed an OperationalError goes
    round again with one retry less and the delay multiplied. *)
Fixpoint execute_loop (retries : nat) (delay : float) (w : World)
  : list Attempt * Outcome PyVal :=
  match retries with
  | O => ([], Raise (DatabaseOperationFailed sql params))
  | S retries' =>
      let a := attempt delay w in
      match att_raised a with
      | Some e' => ([a], Raise e')
      | None =>
          match att_body a with
          | Return v => ([a], Return v)
          | Blocked => ([a], Blocked)
          | Raise e =>
              if is_OperationalError e then
                let (rest, res) :=
                  execute_loop retries' (delay * retry_backoff_base cfg)%float
                               (att_final a) in
                (a :: rest, res)
              else ([a], Raise e)
          end
      end
  end.

Definition attempts_of (retries : Z) (w : World) : list Attempt :=
  fst (execute_loop (Z.to_nat retries) (retry_backoff_base cfg) w).

Definition execute (retries : Z) : M PyVal :=
  fun w =>
    let (atts, res) := execute_loop (Z.to_nat retries) (retry_backoff_base cfg) w in
    mkRun res (last (map att_final atts) w) (flat_map att_events atts).

End Execute.

(** ** batch_insert, lines 125-131 *)

(** [range(0, stop, step)] for [step > 0]: at most [stop] values. *)
Fixpoint range_loop (fuel i stop step : nat) : list nat :=
  match fuel with
  | O => []
  | S fuel' =>
      if (i <? stop)%nat then i :: range_loop fuel' (i + step) stop step else []
  end.

(** [range(0, stop, step)]: ValueError for a zero step, empty for a
    negative one. *)
Definition py_range (stop : nat) (step : Z) : Outcome (list nat) :=
  if step =? 0 then Raise (OtherException "ValueError")
  else if step <? 0 then Return []
  else Return (range_loop stop 0 stop (Z.to_nat step)).

(** [data_list[i:i + batch_size]] for [0 <= i] and [0 < batch_size]. *)
Definition slice (data_list : list PyVal) (i : nat) (batch_size : Z) : list PyVal :=
  firstn (Z.to_nat batch_size) (skipn i data_list).

Definition insert_sql (table_name : string) (columns : list string) : string :=
  let placeholders := String.concat ", " (repeat "%s"%string (List.length columns)) in
  ("INSERT INTO " ++ table_name ++ " (" ++ String.concat "," columns
     ++ ") VALUES (" ++ placeholders ++ ")")%string.

(** One call of [self.execute] made by a batch helper. *)
Record Call : Type := mkCall {
  call_sql : string;
  call_params : PyVal;
  call_run : Run PyVal
}.

(** The [for] loop, lines 129-131; an exception of [execute] ends it. *)
Fixpoint batch_insert_loop (sql_base : string) (data_list : list PyVal)
    (batch_size : Z) (indices : list nat) (w : World) : list Call * Outcome unit :=
  match indices with
  | [] => ([], Return tt)
  | i :: indices' =>
      let batch_data := VList (slice data_list i batch_size) in
      let r := execute sql_base batch_data false false 3 w in
      let call := mkCall sql_base batch_data r in
      match outcome r with
      | Return _ =>
          let (calls, res) :=
            batch_insert_loop sql_base data_list batch_size indices' (final r) in
          (call :: calls, res)
      | Raise e => ([call], Raise e)
      | Blocked => ([call], Blocked)
      end
  end.

Definition batch_insert (table_name : string) (columns : list string)
    (data_list : list PyVal) (batch_size : Z) (w : World) : list Call * Outcome unit :=
  let sql_base := insert_sql table_name columns in
  let total_count := List.length data_list in
  match py_range total_count batch_size with
  | Return indices => batch_insert_loop sql_base data_list batch_size indices w
  | Raise e => ([], Raise e)
  | Blocked => ([], Blocked)
  end.

End Database.

(** ** Reading a run *)

(** The connections handed to [release_conn]: [put_nowait] is called
    there and nowhere else. *)
Fixpoint release_calls (evs : list Event) : list Conn :=
  match evs with
  | [] => []
  | EvPutNowait c _ :: evs' => c :: release_calls evs'
  | _ :: evs' => release_calls evs'
  end.

(** The delays slept (to the end) at one of the two sleep sites, in
    order. *)
Definition site_eqb (a b : SleepSite) : bool :=
  match a, b with
  | InCreateConn, InCreateConn | InExecute, InExecute => true
  | _, _ => false
  end.

Fixpoint sleeps_at (site : SleepSite) (evs : list Event) : list float :=
  match evs with
  | [] => []
  | EvSleep s d :: evs' =>
      if site_eqb s site then d :: sleeps_at site evs' else sleeps_at site evs'
  | _ :: evs' => sleeps_at site evs'
  end.

(** The calls of [pymysql.connect] and what each answered. *)
Fixpoint connect_calls (evs : list Event) : list (Exn + Conn) :=
  match evs with
  | [] => []
  | EvConnect r :: evs' => r :: connect_calls evs'
  | _ :: evs' => connect_calls evs'
  end.

(** The connections closed. *)
Fixpoint close_calls (evs : list Event) : list Conn :=
  match evs with
  | [] => []
  | EvClose c :: evs' => c :: close_calls evs'
  | _ :: evs' => close_calls evs'
  end.

(** The delays handed to [time.sleep] at one of the two sleep sites,
    whether it slept or raised, in order. *)
Fixpoint sleep_calls_at (site : SleepSite) (evs : list Event) : list float :=
  match evs with
  | [] => []
  | EvSleep s d :: evs' | EvSleepError s d _ :: evs' =>
      if site_eqb s site then d :: sleep_calls_at site evs'
      else sleep_calls_at site evs'
  | _ :: evs' => sleep_calls_at site evs'
  end.


(** The delays a backoff loop sleeps when it starts at [d] and goes round
    [n] times: [d], [d * b], [d * b * b], ..., each product rounded as
    Python rounds it. *)
Fixpoint backoff_delays (b : float) (n : nat) (d : float) : list float :=
  match n with
  | O => []
  | S n' => d :: backoff_delays b n' (d * b)%float
  end.

(** The value of the local [delay] at turn [i] of a backoff loop that
    starts with [d]: it is multiplied by [b] at the end of every turn
    (lines 64 and 120). *)
Fixpoint delay_at (b : float) (i : nat) (d : float) : float :=
  match i with
  | O => d
  | S i' => delay_at b i' (d * b)%float
  end.

(** What the call [time.sleep(d)] at [site] leaves in the log. *)
Definition sleep_event (site : SleepSite) (d : float) : Event :=
  match time_sleep_error d with
  | Some e => EvSleepError site d e
  | None => EvSleep site d
  end.


(** [time.sleep] accepts every delay of a list. *)
Definition sleeps_accepted (l : list float) : Prop :=
  Forall (fun d => time_sleep_error d = None) l.

Definition acceptedb (l : list float) : bool :=
  forallb (fun d => match time_sleep_error d with None => true | Some _ => false end) l.

(** An attempt of [execute] that failed with a connectivity-class error:
    its [try] block raised pymysql.OperationalError. *)
Definition connectivity_failure (a : Attempt) : Prop :=
  exists msg, att_body a = Raise (OperationalError msg).


(** A query-class error: a pymysql.MySQLError other than OperationalError. *)
Definition query_class (e : Exn) : bool :=
  is_MySQLError e && negb (is_OperationalError e).

(** The rows a batch call carries as its parameters. *)
Definition call_rows (c : Call) : list PyVal :=
  match call_params c with
  | VList rows => rows
  | _ => []
  end.

(** The world once the head of the queue has been taken out and pinged,
    [q] being the rest of the queue. *)
Definition after_ping (q : list Conn) (w : World) : World :=
  mkWorld q (opened w) (connects w) (S (pings w)) (statements w).

(** The world once [pymysql.connect] has raised. *)
Definition after_failed_connect (w : World) : World :=
  mkWorld (pool w) (opened w) (S (connects w)) (pings w) (statements w).

(** The world once [pymysql.connect] has returned a connection. *)
Definition after_connect (w : World) : World :=
  mkWorld (pool w) (S (opened w)) (S (connects w)) (pings w) (statements w).

(** The "Retries left" figures logged at line 65, in order. *)
Fixpoint retries_left_logged (evs : list Event) : list Z :=
  match evs with
  | [] => []
  | EvLog (LogConnectFailed k _) :: evs' => k :: retries_left_logged evs'
  | _ :: evs' => retries_left_logged evs'
  end.

(** [n - 1], [n - 2], ..., [0]. *)
Fixpoint countdown (n : nat) : list Z :=
  match n with
  | O => []
  | S n' => Z.of_nat n' :: countdown n'
  end.

(** ** Sample configurations, drivers and states *)

(** The defaults of [__init__] with a pool of two: base 1.5. *)
Definition sample_cfg : Config := mkConfig "db.local" 3306 2 1.5%float.

(** A server that answers every call. *)
Definition healthy : Driver :=
  mkDriver (fun _ => None) (fun _ => None) (fun _ => None)
           (fun _ => inr (VList [VInt 1])) (fun _ => VInt 7) (fun _ => None).

(** A server that cannot be reached: error 2003 on every connect. *)
Definition unreachable : Driver :=
  mkDriver (fun _ => Some (OperationalError "2003")) (fun _ => None) (fun _ => None)
           (fun _ => inr (VList [])) (fun _ => VNone) (fun _ => None).

(** A driver whose second connect fails outside pymysql's hierarchy. *)
Definition broken_driver : Driver :=
  mkDriver (fun k => match k with
                     | O => Some (OperationalError "2003")
                     | _ => Some (OtherException "TypeError")
                     end)
           (fun _ => None) (fun _ => None)
           (fun _ => inr (VList [])) (fun _ => VNone) (fun _ => None).

(** The pool of [sample_cfg] right after construction on a healthy server. *)
Definition sample_world : World :=
  Eval vm_compute in final (init sample_cfg healthy).

(** A server that dropped every pooled connection (error 2006 on every
    ping, reconnection included) but accepts new ones. *)
Definition stale : Driver :=
  mkDriver (fun _ => None) (fun _ => Some (OperationalError "2006")) (fun _ => None)
           (fun _ => inr (VList [])) (fun _ => VNone) (fun _ => None).

(** A server that dropped one pooled connection: the first ping fails,
    the later ones succeed. *)
Definition one_dead : Driver :=
  mkDriver (fun _ => None)
           (fun k => match k with O => Some (OperationalError "2006") | _ => None end)
           (fun _ => None)
           (fun _ => inr (VList [])) (fun _ => VNone) (fun _ => None).

(** A server whose link drops during every statement (error 2013). *)
Definition dropping : Driver :=
  mkDriver (fun _ => None) (fun _ => None) (fun _ => Some (OperationalError "2013"))
           (fun _ => inr (VList [])) (fun _ => VNone) (fun _ => None).



(** [MySQLDatabase(config, pool_size=2, retry_backoff_base=1e10)]: a
    delay [time.sleep] rejects. *)
Definition huge_cfg : Config := mkConfig "db.local" 3306 2 1e10%float.

(** A server that refuses the authentication plugin on every connect:
    error 1251, a NotSupportedError, which is a pymysql.MySQLError but
    not an OperationalError. *)
Definition unsupported_auth : Driver :=
  mkDriver (fun _ => Some (OtherMySQLError "1251")) (fun _ => None) (fun _ => None)
           (fun _ => inr (VList [])) (fun _ => VNone) (fun _ => None).

(** [MySQLDatabase(config, pool_size=0)]. *)
Definition zero_cfg : Config := mkConfig "db.local" 3306 0 1.5%float.

(** ** close_all_connections, lines 142-145 *)

(** One turn of the [while not self.pool.empty()] loop takes one
    connection out of the queue, so the loop is a recursion on the queue
    [q], which is [pool w] at every turn. *)
Fixpoint close_all_loop (q : list Conn) : M unit :=
  empty <- pool_empty ;;
  if empty then ret tt
  else
    match q with
    | [] => ret tt
    | _ :: q' =>
        conn <- pool_get ;;
        conn_close conn ;;
        close_all_loop q'
    end.

Definition close_all_connections : M unit :=
  fun w => close_all_loop (pool w) w.

(** ** batch_update, lines 133-140 *)

Definition update_sql (table_name : string) (columns : list string)
    (where_column : string) : string :=
  let set_columns :=
    String.concat ", " (map (fun col => (col ++ " = %s")%string) columns) in
  ("UPDATE " ++ table_name ++ " SET " ++ set_columns
     ++ " WHERE " ++ where_column ++ " = %s")%string.

Section BatchUpdate.

Variable cfg : Config.
Variable drv : Driver.

(** The inner [for record in batch_data] loop, lines 139-140. *)
Fixpoint batch_update_records (sql_base : string) (batch_data : list PyVal)
    (w : World) : list Call * Outcome unit * World :=
  match batch_data with
  | [] => ([], Return tt, w)
  | record :: batch_data' =>
      let r := execute cfg drv sql_base record false false 3 w in
      let call := mkCall sql_base record r in
      match outcome r with
      | Return _ =>
          let '(calls, res, w') :=
            batch_update_records sql_base batch_data' (final r) in
          (call :: calls, res, w')
      | Raise e => ([call], Raise e, final r)
      | Blocked => ([call], Blocked, final r)
      end
  end.

(** The outer [for i in range(...)] loop, lines 137-140. *)
Fixpoint batch_update_loop (sql_base : string) (data_list : list PyVal)
    (batch_size : Z) (indices : list nat) (w : World) : list Call * Outcome unit :=
  match indices with
  | [] => ([], Return tt)
  | i :: indices' =>
      let batch_data := slice data_list i batch_size in
      let '(calls, res, w') := batch_update_records sql_base batch_data w in
      match res with
      | Return _ =>
          let (calls', res') :=
            batch_update_loop sql_base data_list batch_size indices' w' in
          (calls ++ calls', res')
      | _ => (calls, res)
      end
  end.

Definition batch_update (table_name : string) (columns : list string)
    (data_list : list PyVal) (where_column : string) (batch_size : Z) (w : World)
  : list Call * Outcome unit :=
  let sql_base := update_sql table_name columns where_column in
  let total_count := List.length data_list in
  match py_range total_count batch_size with
  | Return indices => batch_update_loop sql_base data_list batch_size indices w
  | Raise e => ([], Raise e)
  | Blocked => ([], Blocked)
  end.

End BatchUpdate.

(** The connections taken out of the queue, in order. *)
Fixpoint get_calls (evs : list Event) : list Conn :=
  match evs with
  | [] => []
  | EvGet c :: evs' => c :: get_calls evs'
  | _ :: evs' => get_calls evs'
  end.

(** A call of a batch helper that returned. *)
Definition call_returned (c : Call) : Prop :=
  exists v, outcome (call_run c) = Return v.

(** A server whose first two connects fail and whose third succeeds. *)
Definition recovering : Driver :=
  mkDriver (fun k => match k with
                     | O | S O => Some (OperationalError "2003")
                     | _ => None
                     end)
           (fun _ => None) (fun _ => None)
           (fun _ => inr (VList [])) (fun _ => VNone) (fun _ => None).

(** A server whose link drops during the first statement only. *)
Definition flaky : Driver :=
  mkDriver (fun _ => None) (fun _ => None)
           (fun k => match k with
                     | O => Some (OperationalError "2013")
                     | _ => None
                     end)
           (fun _ => inr (VList [])) (fun _ => VNone) (fun _ => None).

(** A server that rejects the second statement it is sent. *)
Definition second_rejected : Driver :=
  mkDriver (fun _ => None) (fun _ => None)
           (fun k => match k with
                     | S O => Some (OtherMySQLError "1062")
                     | _ => None
                     end)
           (fun _ => inr (VList [])) (fun _ => VNone) (fun _ => None).

(** Five records of two columns each. *)
Definition five_records : list PyVal :=
  [VList [VInt 1; VInt 10]; VList [VInt 2; VInt 20]; VList [VInt 3; VInt 30];
   VList [VInt 4; VInt 40]; VList [VInt 5; VInt 50]].

(** * Properties *)

(** ** Event lists *)

Lemma release_calls_app (l1 l2 : list Event) :
  release_calls (l1 ++ l2) = release_calls l1 ++ release_calls l2.
Proof.
  induction l1 as [|ev l1 IH]; simpl; [reflexivity|].
  destruct ev; simpl; rewrite ?IH; reflexivity.
Qed.

Lemma sleeps_at_app (site : SleepSite) (l1 l2 : list Event) :
  sleeps_at site (l1 ++ l2) = sleeps_at site l1 ++ sleeps_at site l2.
Proof.
  induction l1 as [|ev l1 IH]; simpl; [reflexivity|].
  destruct ev; simpl; rewrite ?IH; try reflexivity.
  destruct (site_eqb site0 site); simpl; rewrite ?IH; reflexivity.
Qed.

Lemma sleep_calls_at_app (site : SleepSite) (l1 l2 : list Event) :
  sleep_calls_at site (l1 ++ l2)
  = sleep_calls_at site l1 ++ sleep_calls_at site l2.
Proof.
  induction l1 as [|ev l1 IH]; simpl; [reflexivity|].
  destruct ev; simpl; rewrite ?IH; try reflexivity;
    destruct (site_eqb site0 site); simpl; rewrite ?IH; reflexivity.
Qed.

Lemma connect_calls_app (l1 l2 : list Event) :
  connect_calls (l1 ++ l2) = connect_calls l1 ++ connect_calls l2.
Proof.
  induction l1 as [|ev l1 IH]; simpl; [reflexivity|].
  destruct ev; simpl; rewrite ?IH; reflexivity.
Qed.

(** ** time.sleep and the backoff schedule *)

(** What [time.sleep] raises is no pymysql error. *)
Lemma time_sleep_error_class (d : float) (e : Exn) :
  time_sleep_error d = Some e -> is_MySQLError e = false.
Proof.
  unfold time_sleep_error.
  destruct (is_nan d); [intro H; injection H as <-; reflexivity|].
  destruct ((d * 1e9 <? -9223372036854775808)%float
            || negb (d * 1e9 <? 9223372036854775808)%float);
    [intro H; injection H as <-; reflexivity|].
  destruct (d <? 0)%float; [intro H; injection H as <-; reflexivity|discriminate].
Qed.

Lemma backoff_delays_length (b : float) (n : nat) (d : float) :
  List.length (backoff_delays b n d) = n.
Proof.
  revert d; induction n as [|n IH]; intro d; simpl; [reflexivity|].
  now rewrite IH.
Qed.

(** The schedule starts at [d] and each delay is the one before it
    multiplied by [b]. *)
Lemma backoff_delays_step (b : float) (n : nat) :
  forall (d z : float),
    ((0 < n)%nat -> nth 0 (backoff_delays b n d) z = d)
    /\ (forall i, (S i < n)%nat ->
          nth (S i) (backoff_delays b n d) z
          = (nth i (backoff_delays b n d) z * b)%float).
Proof.
  induction n as [|n IH]; intros d z; [split; intros; lia|].
  split; [reflexivity|].
  intros i Hi. destruct (IH (d * b)%float z) as [H0 Hstep].
  destruct i as [|i].
  - change (nth 1 (backoff_delays b (S n) d) z)
      with (nth 0 (backoff_delays b n (d * b)%float) z).
    rewrite H0 by lia. reflexivity.
  - change (nth (S (S i)) (backoff_delays b (S n) d) z)
      with (nth (S i) (backoff_delays b n (d * b)%float) z).
    rewrite Hstep by lia. reflexivity.
Qed.





Lemma acceptedb_sound (l : list float) :
  acceptedb l = true -> sleeps_accepted l.
Proof.
  unfold acceptedb, sleeps_accepted. intro H. apply Forall_forall. intros d Hin.
  rewrite forallb_forall in H. specialize (H d Hin).
  destruct (time_sleep_error d); [discriminate|reflexivity].
Qed.


(** The [i]-th delay of the schedule is the value of [delay] at turn [i]. *)
Lemma backoff_delays_nth (b : float) (n : nat) :
  forall (i : nat) (d z : float),
    (i < n)%nat -> nth i (backoff_delays b n d) z = delay_at b i d.
Proof.
  induction n as [|n IH]; intros i d z Hi; [lia|].
  destruct i as [|i]; [reflexivity|].
  simpl. apply IH. lia.
Qed.

Lemma delay_at_succ (b : float) (i : nat) :
  forall d, delay_at b (S i) d = (delay_at b i d * b)%float.
Proof.
  induction i as [|i IH]; intro d; [reflexivity|].
  change (delay_at b (S (S i)) d) with (delay_at b (S i) (d * b)%float).
  rewrite IH. reflexivity.
Qed.




(** ** create_conn *)

Section CreateConn.

Variable cfg : Config.
Variable drv : Driver.

Let base : float := retry_backoff_base cfg.

Lemma create_conn_loop_connected (n : nat) (d : float) (w : World) :
  connect drv (connects w) = None ->
  create_conn_loop cfg drv (S n) d w
  = mkRun (Return (Some (opened w))) (after_connect w) [EvConnect (inr (opened w))].
Proof.
  intro H. simpl. unfold try_catch, bind, pymysql_connect. rewrite H. reflexivity.
Qed.

Lemma create_conn_loop_fatal (n : nat) (d : float) (w : World) (e : Exn) :
  connect drv (connects w) = Some e ->
  is_MySQLError e = false ->
  create_conn_loop cfg drv (S n) d w
  = mkRun (Raise e) (after_failed_connect w) [EvConnect (inl e)].
Proof.
  intros H He. simpl. unfold try_catch, bind, pymysql_connect. rewrite H.
  simpl. rewrite He. reflexivity.
Qed.

(** [time.sleep] raises at line 63: its exception leaves the function. *)
Lemma create_conn_loop_sleep_raises (n : nat) (d : float) (w : World) (e e' : Exn) :
  connect drv (connects w) = Some e ->
  is_MySQLError e = true ->
  time_sleep_error d = Some e' ->
  create_conn_loop cfg drv (S n) d w
  = mkRun (Raise e') (after_failed_connect w)
          [EvConnect (inl e); EvSleepError InCreateConn d e'].
Proof.
  intros H He Hs. simpl. unfold try_catch, bind, pymysql_connect. rewrite H.
  cbn [outcome final events]. rewrite He. unfold sleep. rewrite Hs. reflexivity.
Qed.

Lemma create_conn_loop_exhausted (d : float) (w : World) (e : Exn) :
  connect drv (connects w) = Some e ->
  is_MySQLError e = true ->
  time_sleep_error d = None ->
  create_conn_loop cfg drv 1 d w
  = mkRun (Raise (DatabaseConnectionError (host cfg) (port cfg)))
          (after_failed_connect w)
          [EvConnect (inl e); EvSleep InCreateConn d; EvLog (LogConnectFailed 0 e)].
Proof.
  intros H He Hs. simpl. unfold try_catch, bind, pymysql_connect. rewrite H.
  cbn [outcome final events]. rewrite He. unfold sleep. rewrite Hs. reflexivity.
Qed.

Lemma create_conn_loop_retry (n : nat) (d : float) (w : World) (e : Exn) :
  connect drv (connects w) = Some e ->
  is_MySQLError e = true ->
  time_sleep_error d = None ->
  create_conn_loop cfg drv (S (S n)) d w
  = let r := create_conn_loop cfg drv (S n) (d * base)%float
                              (after_failed_connect w) in
    mkRun (outcome r) (final r)
          ([EvConnect (inl e); EvSleep InCreateConn d;
            EvLog (LogConnectFailed (Z.of_nat (S n)) e)] ++ events r).
Proof.
  intros H He Hs.
  change (create_conn_loop cfg drv (S (S n)) d w)
    with (try_catch
            (bind (pymysql_connect drv) (fun conn => ret (Some conn)))
            (fun e0 =>
               if is_MySQLError e0 then
                 bind (sleep InCreateConn d) (fun _ =>
                 bind (log (LogConnectFailed (Z.of_nat (S n)) e0)) (fun _ =>
                   create_conn_loop cfg drv (S n) (d * base)%float))
               else raise e0) w).
  unfold try_catch, bind, pymysql_connect, sleep, log, emit, ret, raise.
  cbn [outcome final events app]. rewrite H.
  cbn [outcome final events app]. rewrite He, Hs.
  cbn [outcome final events app].
  fold (after_failed_connect w).
  destruct (create_conn_loop cfg drv (S n) (d * base)%float (after_failed_connect w))
    as [o f evs].
  destruct o; reflexivity.
Qed.

End CreateConn.

Section CreateConnFacts.

Variable cfg : Config.
Variable drv : Driver.

Let base : float := retry_backoff_base cfg.

(** Reasoning by cases on the turns of the loop of [create_conn]. *)
Lemma create_conn_loop_cases
    (P : nat -> float -> World -> Run (option Conn) -> Prop) :
  (forall d w, P O d w (mkRun (Return None) w [])) ->
  (forall n d w,
      connect drv (connects w) = None ->
      P (S n) d w
        (mkRun (Return (Some (opened w))) (after_connect w)
               [EvConnect (inr (opened w))])) ->
  (forall n d w e,
      connect drv (connects w) = Some e -> is_MySQLError e = false ->
      P (S n) d w (mkRun (Raise e) (after_failed_connect w) [EvConnect (inl e)])) ->
  (forall n d w e e',
      connect drv (connects w) = Some e -> is_MySQLError e = true ->
      time_sleep_error d = Some e' ->
      P (S n) d w
        (mkRun (Raise e') (after_failed_connect w)
               [EvConnect (inl e); EvSleepError InCreateConn d e'])) ->
  (forall d w e,
      connect drv (connects w) = Some e -> is_MySQLError e = true ->
      time_sleep_error d = None ->
      P 1%nat d w
        (mkRun (Raise (DatabaseConnectionError (host cfg) (port cfg)))
               (after_failed_connect w)
               [EvConnect (inl e); EvSleep InCreateConn d;
                EvLog (LogConnectFailed 0 e)])) ->
  (forall n d w e r,
      connect drv (connects w) = Some e -> is_MySQLError e = true ->
      time_sleep_error d = None ->
      r = create_conn_loop cfg drv (S n) (d * base)%float (after_failed_connect w) ->
      P (S n) (d * base)%float (after_failed_connect w) r ->
      P (S (S n)) d w
        (mkRun (outcome r) (final r)
               ([EvConnect (inl e); EvSleep InCreateConn d;
                 EvLog (LogConnectFailed (Z.of_nat (S n)) e)] ++ events r))) ->
  forall n d w, P n d w (create_conn_loop cfg drv n d w).
Proof.
  intros H0 Hok Hfatal Hsleep Hlast Hretry.
  induction n as [|n IH]; intros d w; [apply H0|].
  destruct (connect drv (connects w)) as [e|] eqn:Hc.
  - destruct (is_MySQLError e) eqn:He.
    + destruct (time_sleep_error d) as [e'|] eqn:Hs.
      * rewrite (create_conn_loop_sleep_raises cfg drv n d w e e' Hc He Hs).
        now apply Hsleep.
      * destruct n as [|n].
        -- rewrite (create_conn_loop_exhausted cfg drv d w e Hc He Hs).
           now apply Hlast.
        -- rewrite (create_conn_loop_retry cfg drv n d w e Hc He Hs).
           cbv zeta. apply Hretry; auto.
    + rewrite (create_conn_loop_fatal cfg drv n d w e Hc He). now apply Hfatal.
  - rewrite (create_conn_loop_connected cfg drv n d w Hc). now apply Hok.
Qed.

(** The factory leaves the queue alone. *)
Lemma create_conn_loop_pool (n : nat) (d : float) (w : World) :
  pool (final (create_conn_loop cfg drv n d w)) = pool w.
Proof.
  apply (create_conn_loop_cases (fun _ _ w r => pool (final r) = pool w));
    intros; simpl; auto.
Qed.

(** The factory releases nothing and never calls [time.sleep] at
    [execute]'s site. *)
Lemma create_conn_loop_quiet (n : nat) (d : float) (w : World) :
  release_calls (events (create_conn_loop cfg drv n d w)) = []
  /\ sleeps_at InExecute (events (create_conn_loop cfg drv n d w)) = []
  /\ sleep_calls_at InExecute (events (create_conn_loop cfg drv n d w)) = [].
Proof.
  apply (create_conn_loop_cases
           (fun _ _ _ r => release_calls (events r) = []
                           /\ sleeps_at InExecute (events r) = []
                           /\ sleep_calls_at InExecute (events r) = []));
    intros; simpl; auto.
Qed.

(** What the factory raises is never a pymysql error: those are caught
    at line 61. *)
Lemma create_conn_loop_raises (n : nat) (d : float) (w : World) (e : Exn) :
  outcome (create_conn_loop cfg drv n d w) = Raise e -> is_MySQLError e = false.
Proof.
  revert e.
  apply (create_conn_loop_cases
           (fun _ _ _ r => forall e, outcome r = Raise e -> is_MySQLError e = false));
    simpl; intros; try discriminate; auto.
  - congruence.
  - injection H2 as <-. eapply time_sleep_error_class; eauto.
  - injection H2 as <-. reflexivity.
Qed.

(** With a positive budget the factory calls [pymysql.connect] and never
    returns [None]. *)
Lemma create_conn_loop_invoked (n : nat) (d : float) (w : World) :
  (0 < n)%nat ->
  connect_calls (events (create_conn_loop cfg drv n d w)) <> []
  /\ outcome (create_conn_loop cfg drv n d w) <> Return None.
Proof.
  apply (create_conn_loop_cases
           (fun n _ _ r => (0 < n)%nat ->
                           connect_calls (events r) <> []
                           /\ outcome r <> Return None));
    simpl; intros; try lia; try (split; discriminate).
  split; [discriminate|]. apply H3. lia.
Qed.

End CreateConnFacts.

Lemma countdown_nth (n i : nat) :
  (i < n)%nat -> nth i (countdown n) (-1) = Z.of_nat n - 1 - Z.of_nat i.
Proof.
  revert i; induction n as [|n IH]; intros i Hi; [lia|].
  destruct i as [|i]; simpl nth; [lia|].
  rewrite IH by lia. lia.
Qed.

Section CreateConnBackoff.

Variable cfg : Config.
Variable drv : Driver.

Let base : float := retry_backoff_base cfg.

(** The [k]-th connect of the driver fails with a pymysql error. *)
Let connect_fails (k : nat) : Prop :=
  exists e, connect drv k = Some e /\ is_MySQLError e = true.

Lemma create_conn_loop_all_fail (n : nat) (d : float) (w : World) :
  (0 < n)%nat ->
  (forall i, (i < n)%nat -> connect_fails (connects w + i)) ->
  sleeps_accepted (backoff_delays base n d) ->
  let r := create_conn_loop cfg drv n d w in
  outcome r = Raise (DatabaseConnectionError (host cfg) (port cfg))
  /\ List.length (connect_calls (events r)) = n
  /\ sleeps_at InCreateConn (events r) = backoff_delays base n d
  /\ retries_left_logged (events r) = countdown n.
Proof.
  cbv zeta.
  apply (create_conn_loop_cases cfg drv
           (fun n d w r =>
              (0 < n)%nat ->
              (forall i, (i < n)%nat -> connect_fails (connects w + i)) ->
              sleeps_accepted (backoff_delays base n d) ->
              outcome r = Raise (DatabaseConnectionError (host cfg) (port cfg))
              /\ List.length (connect_calls (events r)) = n
              /\ sleeps_at InCreateConn (events r) = backoff_delays base n d
              /\ retries_left_logged (events r) = countdown n)).
  - intros; lia.
  - intros n0 d0 w0 Hc _ Hall _. destruct (Hall O) as (e & He & _); [lia|].
    rewrite Nat.add_0_r in He. congruence.
  - intros n0 d0 w0 e Hc Hne _ Hall _. destruct (Hall O) as (e' & He' & Hm); [lia|].
    rewrite Nat.add_0_r in He'. congruence.
  - intros n0 d0 w0 e e' Hc He Hs _ _ Hacc. inversion Hacc as [|x l Hx _]; subst.
    congruence.
  - intros; simpl; auto.
  - intros n0 d0 w0 e r Hc He Hs _ IH _ Hall Hacc.
    inversion Hacc as [|x l _ Hrest]; subst.
    destruct IH as (Ho & Hn & Hsl & Hl); [lia| |exact Hrest|].
    + intros i Hi. specialize (Hall (S i)).
      simpl. rewrite <- Nat.add_succ_r. apply Hall. lia.
    + cbn [outcome events]. rewrite connect_calls_app, sleeps_at_app.
      simpl. rewrite Hn, Hsl. simpl in Hl. rewrite Hl. auto.
Qed.

Lemma create_conn_loop_fatal_at (n : nat) (d : float) (w : World) (j : nat) (e : Exn) :
  (j < n)%nat ->
  (forall i, (i < j)%nat -> connect_fails (connects w + i)) ->
  sleeps_accepted (backoff_delays base j d) ->
  connect drv (connects w + j) = Some e ->
  is_MySQLError e = false ->
  let r := create_conn_loop cfg drv n d w in
  outcome r = Raise e
  /\ exists pre,
       events r = pre ++ [EvConnect (inl e)]
       /\ List.length (connect_calls pre) = j
       /\ sleeps_at InCreateConn pre = backoff_delays base j d.
Proof.
  cbv zeta. revert j.
  apply (create_conn_loop_cases cfg drv
           (fun n d w r =>
              forall j, (j < n)%nat ->
              (forall i, (i < j)%nat -> connect_fails (connects w + i)) ->
              sleeps_accepted (backoff_delays base j d) ->
              connect drv (connects w + j) = Some e ->
              is_MySQLError e = false ->
              outcome r = Raise e
              /\ exists pre,
                   events r = pre ++ [EvConnect (inl e)]
                   /\ List.length (connect_calls pre) = j
                   /\ sleeps_at InCreateConn pre = backoff_delays base j d)).
  - intros; lia.
  - intros n0 d0 w0 Hc j Hj Hall _ Hj' _.
    destruct j as [|j].
    + rewrite Nat.add_0_r in Hj'. congruence.
    + destruct (Hall O) as (e' & He' & _); [lia|].
      rewrite Nat.add_0_r in He'. congruence.
  - intros n0 d0 w0 e0 Hc Hne j Hj Hall _ Hj' _.
    destruct j as [|j].
    + rewrite Nat.add_0_r in Hj'. assert (e0 = e) by congruence. subst e0.
      simpl. split; [reflexivity|]. exists []. auto.
    + destruct (Hall O) as (e' & He' & Hm); [lia|].
      rewrite Nat.add_0_r in He'. congruence.
  - intros n0 d0 w0 e0 e' Hc He Hs j Hj Hall Hacc Hj' Hne.
    destruct j as [|j].
    + rewrite Nat.add_0_r in Hj'. congruence.
    + inversion Hacc as [|x l Hx _]; subst. congruence.
  - intros d0 w0 e0 Hc He Hs j Hj Hall _ Hj' Hne.
    assert (j = O) by lia. subst j.
    rewrite Nat.add_0_r in Hj'. congruence.
  - intros n0 d0 w0 e0 r Hc He Hs _ IH j Hj Hall Hacc Hj' Hne.
    destruct j as [|j].
    + rewrite Nat.add_0_r in Hj'. congruence.
    + inversion Hacc as [|x l _ Hrest]; subst.
      destruct (IH j) as (Ho & pre & Hev & Hn & Hsl);
        [lia| |exact Hrest| |assumption|].
      * intros i Hi. simpl. rewrite <- Nat.add_succ_r. apply Hall. lia.
      * simpl. rewrite <- Nat.add_succ_r. exact Hj'.
      * cbn [outcome events]. split; [exact Ho|].
        exists ([EvConnect (inl e0); EvSleep InCreateConn d0;
                 EvLog (LogConnectFailed (Z.of_nat (S n0)) e0)] ++ pre).
        rewrite Hev, connect_calls_app, sleeps_at_app.
        simpl. rewrite Hn, Hsl. auto.
Qed.

(** The first delay [time.sleep] refuses ends the loop: its exception
    leaves [create_conn] from the handler of line 61. *)
Lemma create_conn_loop_sleep_raises_at (n : nat) (d : float) (w : World) (j : nat)
    (e' : Exn) :
  (j < n)%nat ->
  (forall i, (i <= j)%nat -> connect_fails (connects w + i)) ->
  sleeps_accepted (backoff_delays base j d) ->
  time_sleep_error (delay_at base j d) = Some e' ->
  let r := create_conn_loop cfg drv n d w in
  outcome r = Raise e'
  /\ List.length (connect_calls (events r)) = S j
  /\ sleeps_at InCreateConn (events r) = backoff_delays base j d
  /\ sleep_calls_at InCreateConn (events r) = backoff_delays base (S j) d.
Proof.
  cbv zeta. revert j.
  apply (create_conn_loop_cases cfg drv
           (fun n d w r =>
              forall j, (j < n)%nat ->
              (forall i, (i <= j)%nat -> connect_fails (connects w + i)) ->
              sleeps_accepted (backoff_delays base j d) ->
              time_sleep_error (delay_at base j d) = Some e' ->
              outcome r = Raise e'
              /\ List.length (connect_calls (events r)) = S j
              /\ sleeps_at InCreateConn (events r) = backoff_delays base j d
              /\ sleep_calls_at InCreateConn (events r)
                 = backoff_delays base (S j) d)).
  - intros; lia.
  - intros n0 d0 w0 Hc j Hj Hall _ _.
    destruct (Hall O) as (e & He & _); [lia|].
    rewrite Nat.add_0_r in He. congruence.
  - intros n0 d0 w0 e Hc Hne j Hj Hall _ _.
    destruct (Hall O) as (e0 & He0 & Hm); [lia|].
    rewrite Nat.add_0_r in He0. congruence.
  - intros n0 d0 w0 e e0 Hc He Hs j Hj Hall Hacc Hj'.
    destruct j as [|j].
    + simpl in Hj'. assert (e0 = e') by congruence. subst e0. simpl. auto.
    + inversion Hacc as [|x l Hx _]; subst. congruence.
  - intros d0 w0 e Hc He Hs j Hj Hall _ Hj'.
    assert (j = O) by lia. subst j. simpl in Hj'. congruence.
  - intros n0 d0 w0 e r Hc He Hs _ IH j Hj Hall Hacc Hj'.
    destruct j as [|j]; [simpl in Hj'; congruence|].
    inversion Hacc as [|x l _ Hrest]; subst.
    destruct (IH j) as (Ho & Hn & Hsl & Hsc); [lia| |exact Hrest|exact Hj'|].
    + intros i Hi. simpl. rewrite <- Nat.add_succ_r. apply Hall. lia.
    + cbn [outcome events].
      rewrite connect_calls_app, sleeps_at_app, sleep_calls_at_app.
      simpl. rewrite Hn, Hsl. simpl in Hsc. rewrite Hsc. auto.
Qed.

End CreateConnBackoff.

(** C5, as the code has it.  With a positive retry budget, when every
    connection attempt fails with an error that [create_conn] catches,
    that is with any pymysql.MySQLError, connectivity-class or not, and
    [time.sleep] accepts the delays of the schedule, the factory calls
    connect [retries] times, sleeps after each failure, the first time
    for [base] and each next time for the previous delay multiplied by
    [base] (a float product), logs the remaining attempts counting down
    to 0, and then raises DatabaseConnectionError with the configured
    host and port.  When instead some attempt fails with an error that
    is not a pymysql.MySQLError, that error is what [create_conn]
    raises, and the failed connect is the last thing it did: no sleep,
    no further attempt.  And when [time.sleep] refuses the delay after
    some failed attempt (a ValueError or an OverflowError), that
    exception is what [create_conn] raises, without another attempt. *)
Theorem create_conn_backoff_then_ConnectionError
    (cfg : Config) (drv : Driver) (retries : Z) (w : World) :
  0 < retries ->
  let n := Z.to_nat retries in
  let b := retry_backoff_base cfg in
  let r := create_conn cfg drv retries w in
  ((forall i, (i < n)%nat ->
      exists e, connect drv (connects w + i) = Some e /\ is_MySQLError e = true) ->
   sleeps_accepted (backoff_delays b n b) ->
   outcome r = Raise (DatabaseConnectionError (host cfg) (port cfg))
   /\ Z.of_nat (List.length (connect_calls (events r))) = retries
   /\ List.length (sleeps_at InCreateConn (events r)) = n
   /\ nth 0 (sleeps_at InCreateConn (events r)) 0%float = b
   /\ (forall i, (S i < n)%nat ->
         nth (S i) (sleeps_at InCreateConn (events r)) 0%float
         = (nth i (sleeps_at InCreateConn (events r)) 0 * b)%float)
   /\ (forall i, (i < n)%nat ->
         nth i (retries_left_logged (events r)) (-1) = retries - 1 - Z.of_nat i))
  /\
  (forall (j : nat) (e : Exn),
      (j < n)%nat ->
      (forall i, (i < j)%nat ->
         exists e', connect drv (connects w + i) = Some e' /\ is_MySQLError e' = true) ->
      sleeps_accepted (backoff_delays b j b) ->
      connect drv (connects w + j) = Some e ->
      is_MySQLError e = false ->
      outcome r = Raise e
      /\ exists pre,
           events r = pre ++ [EvConnect (inl e)]
           /\ List.length (connect_calls pre) = j
           /\ List.length (sleeps_at InCreateConn pre) = j)
  /\
  (forall (j : nat) (e' : Exn),
      (j < n)%nat ->
      (forall i, (i <= j)%nat ->
         exists e, connect drv (connects w + i) = Some e /\ is_MySQLError e = true) ->
      sleeps_accepted (backoff_delays b j b) ->
      time_sleep_error (delay_at b j b) = Some e' ->
      outcome r = Raise e'
      /\ List.length (connect_calls (events r)) = S j
      /\ List.length (sleeps_at InCreateConn (events r)) = j).
Proof.
  intros Hpos n b r.
  assert (Hr : r = create_conn_loop cfg drv n b w) by reflexivity.
  clearbody r. subst r. split; [|split].
  - intros Hall Hacc.
    destruct (create_conn_loop_all_fail cfg drv n b w) as (Ho & Hn & Hs & Hl);
      [unfold n; lia|exact Hall|exact Hacc|].
    split; [exact Ho|]. split; [rewrite Hn; unfold n; lia|].
    rewrite Hs, Hl, backoff_delays_length. split; [reflexivity|].
    destruct (backoff_delays_step b n b 0%float) as [H0 Hstep].
    split; [apply H0; unfold n; lia|]. split; [exact Hstep|].
    intros i Hi. rewrite countdown_nth by exact Hi. unfold n. lia.
  - intros j e Hj Hall Hacc Hc He.
    destruct (create_conn_loop_fatal_at cfg drv n b w j e Hj Hall Hacc Hc He)
      as (Ho & pre & Hev & Hn & Hs).
    split; [exact Ho|]. exists pre. split; [exact Hev|]. split; [exact Hn|].
    rewrite Hs. apply backoff_delays_length.
  - intros j e' Hj Hall Hacc Hs.
    destruct (create_conn_loop_sleep_raises_at cfg drv n b w j e' Hj Hall Hacc Hs)
      as (Ho & Hn & Hsl & _).
    split; [exact Ho|]. split; [exact Hn|].
    rewrite Hsl. apply backoff_delays_length.
Qed.

Lemma create_conn_backoff_then_ConnectionError_witness :
  (outcome (create_conn sample_cfg unreachable 3 empty_world)
   = Raise (DatabaseConnectionError "db.local" 3306)
   /\ Z.of_nat (List.length (connect_calls
                   (events (create_conn sample_cfg unreachable 3 empty_world)))) = 3
   /\ List.length (sleeps_at InCreateConn
                   (events (create_conn sample_cfg unreachable 3 empty_world))) = 3%nat)
  /\ outcome (create_conn sample_cfg broken_driver 3 empty_world)
     = Raise (OtherException "TypeError")
  /\ outcome (create_conn huge_cfg unreachable 3 empty_world)
     = Raise (OtherException "OverflowError").
Proof.
  split; [|split].
  - destruct (create_conn_backoff_then_ConnectionError
                sample_cfg unreachable 3 empty_world) as [HA _]; [lia|].
    destruct HA as (Ho & Hn & Hs & _).
    + intros i _. exists (OperationalError "2003"). split; reflexivity.
    + apply acceptedb_sound. vm_compute. reflexivity.
    + repeat split; assumption.
  - destruct (create_conn_backoff_then_ConnectionError
                sample_cfg broken_driver 3 empty_world) as (_ & HB & _); [lia|].
    destruct (HB 1%nat (OtherException "TypeError")) as [Ho _].
    + simpl; lia.
    + intros i Hi. assert (i = O) by lia. subst i.
      exists (OperationalError "2003"). split; reflexivity.
    + apply acceptedb_sound. vm_compute. reflexivity.
    + reflexivity.
    + reflexivity.
    + exact Ho.
  - destruct (create_conn_backoff_then_ConnectionError
                huge_cfg unreachable 3 empty_world) as (_ & _ & HC); [lia|].
    destruct (HC 0%nat (OtherException "OverflowError")) as [Ho _].
    + simpl; lia.
    + intros i _. exists (OperationalError "2003"). split; reflexivity.
    + constructor.
    + vm_compute. reflexivity.
    + exact Ho.
Defined.

(** C5, the claim as stated fails: a connect that fails with a
    non-connectivity error of the driver (error 1251, a query-class
    error by this program's own classification in [execute]) is not
    propagated at once: it is caught at line 61, retried three times
    with sleeps, and replaced by DatabaseConnectionError.  And with
    [retry_backoff_base = 1e10] and a server that cannot be reached,
    every attempt fails with a connectivity-class error, yet there is
    one attempt only, no wait, and the call raises the OverflowError of
    [time.sleep(1e10)], not DatabaseConnectionError. *)
Lemma create_conn_retries_non_connectivity_driver_errors :
  let r := create_conn sample_cfg unsupported_auth 3 empty_world in
  connect unsupported_auth 0 = Some (OtherMySQLError "1251")
  /\ is_OperationalError (OtherMySQLError "1251") = false
  /\ query_class (OtherMySQLError "1251") = true
  /\ outcome r = Raise (DatabaseConnectionError "db.local" 3306)
  /\ outcome r <> Raise (OtherMySQLError "1251")
  /\ List.length (connect_calls (events r)) = 3%nat
  /\ sleeps_at InCreateConn (events r) = [1.5; 2.25; 3.375]%float
  /\ outcome (create_conn huge_cfg unreachable 3 empty_world)
     = Raise (OtherException "OverflowError")
  /\ List.length (connect_calls
                    (events (create_conn huge_cfg unreachable 3 empty_world)))
     = 1%nat.
Proof.
  cbv zeta.
  assert (Ho : outcome (create_conn sample_cfg unsupported_auth 3 empty_world)
               = Raise (DatabaseConnectionError "db.local" 3306))
    by (vm_compute; reflexivity).
  rewrite Ho.
  repeat split; try (vm_compute; reflexivity). discriminate.
Qed.

(** C10.  With a non-positive budget the loop of [create_conn] is never
    entered: the call returns Python's [None], raises nothing, and has
    no effect at all. *)
Theorem create_conn_nonpositive_returns_None
    (cfg : Config) (drv : Driver) (retries : Z) (w : World) :
  retries <= 0 ->
  create_conn cfg drv retries w = mkRun (Return None) w [].
Proof.
  intro H. unfold create_conn.
  replace (Z.to_nat retries) with O by lia. reflexivity.
Qed.

Lemma create_conn_nonpositive_returns_None_witness :
  (0 <= 0)%Z
  /\ create_conn sample_cfg unreachable 0 empty_world
     = mkRun (Return None) empty_world [].
Proof.
  split; [lia|].
  apply (create_conn_nonpositive_returns_None sample_cfg unreachable 0 empty_world).
  lia.
Defined.
(** ** get_conn *)

Section GetConn.

Variable cfg : Config.
Variable drv : Driver.

(** What a failed probe leaves in the log, lines 73-77. *)
Let discard (c : Conn) (e : Exn) : list Event :=
  [EvGet c; EvPing c (Some e); EvLog (LogConnectionLost e); EvClose c].

Lemma get_conn_loop_alive (x : Conn) (q' : list Conn) (w : World) (c : Conn) (q : list Conn) :
  pool w = c :: q ->
  ping drv (pings w) = None ->
  get_conn_loop cfg drv (x :: q') w
  = mkRun (Return (Some c)) (after_ping q w) [EvGet c; EvPing c None].
Proof.
  intros Hp Hping. simpl.
  unfold bind, try_catch, pool_get, conn_ping, ret.
  rewrite Hp. cbn [outcome final events app set_pool pings]. rewrite Hping.
  reflexivity.
Qed.

Lemma get_conn_loop_fallback (x : Conn) (q' : list Conn) (w : World) (c : Conn) (e : Exn) :
  pool w = [c] ->
  ping drv (pings w) = Some e ->
  get_conn_loop cfg drv (x :: q') w
  = let r := create_conn cfg drv 3 (after_ping [] w) in
    mkRun (outcome r) (final r) (discard c e ++ events r).
Proof.
  intros Hp Hping.
  change (get_conn_loop cfg drv (x :: q') w)
    with (bind pool_get
            (fun conn =>
               try_catch
                 (bind (conn_ping drv conn) (fun _ => ret (Some conn)))
                 (fun e0 =>
                    bind (log (LogConnectionLost e0)) (fun _ =>
                    bind (conn_close conn) (fun _ =>
                    bind pool_empty (fun empty =>
                      if empty then create_conn cfg drv 3
                      else get_conn_loop cfg drv q'))))) w).
  unfold bind, try_catch, pool_get, conn_ping, ret, log, conn_close, emit, pool_empty.
  rewrite Hp. cbn [outcome final events app set_pool pings pool]. rewrite Hping.
  cbn [outcome final events app set_pool pings pool opened connects statements].
  unfold discard. fold (after_ping [] w).
  destruct (create_conn cfg drv 3 (after_ping [] w)) as [o f evs].
  destruct o; reflexivity.
Qed.

Lemma get_conn_loop_next (x : Conn) (q' : list Conn) (w : World)
    (c c2 : Conn) (q2 : list Conn) (e : Exn) :
  pool w = c :: c2 :: q2 ->
  ping drv (pings w) = Some e ->
  get_conn_loop cfg drv (x :: q') w
  = let r := get_conn_loop cfg drv q' (after_ping (c2 :: q2) w) in
    mkRun (outcome r) (final r) (discard c e ++ events r).
Proof.
  intros Hp Hping.
  change (get_conn_loop cfg drv (x :: q') w)
    with (bind pool_get
            (fun conn =>
               try_catch
                 (bind (conn_ping drv conn) (fun _ => ret (Some conn)))
                 (fun e0 =>
                    bind (log (LogConnectionLost e0)) (fun _ =>
                    bind (conn_close conn) (fun _ =>
                    bind pool_empty (fun empty =>
                      if empty then create_conn cfg drv 3
                      else get_conn_loop cfg drv q'))))) w).
  unfold bind, try_catch, pool_get, conn_ping, ret, log, conn_close, emit, pool_empty.
  rewrite Hp. cbn [outcome final events app set_pool pings pool]. rewrite Hping.
  cbn [outcome final events app set_pool pings pool opened connects statements].
  unfold discard. fold (after_ping (c2 :: q2) w).
  destruct (get_conn_loop cfg drv q' (after_ping (c2 :: q2) w)) as [o f evs].
  destruct o; reflexivity.
Qed.

(** Reasoning by cases on the turns of the loop of [get_conn]. *)
Lemma get_conn_cases (P : World -> Run (option Conn) -> Prop) :
  (forall w, pool w = [] -> P w (mkRun Blocked w [])) ->
  (forall w c q,
      pool w = c :: q -> ping drv (pings w) = None ->
      P w (mkRun (Return (Some c)) (after_ping q w) [EvGet c; EvPing c None])) ->
  (forall w c e r,
      pool w = [c] -> ping drv (pings w) = Some e ->
      r = create_conn cfg drv 3 (after_ping [] w) ->
      P w (mkRun (outcome r) (final r) (discard c e ++ events r))) ->
  (forall w c c2 q2 e r,
      pool w = c :: c2 :: q2 -> ping drv (pings w) = Some e ->
      r = get_conn cfg drv (after_ping (c2 :: q2) w) ->
      P (after_ping (c2 :: q2) w) r ->
      P w (mkRun (outcome r) (final r) (discard c e ++ events r))) ->
  forall w, P w (get_conn cfg drv w).
Proof.
  intros Hblock Halive Hfall Hnext w. unfold get_conn.
  remember (pool w) as q eqn:Hq. symmetry in Hq.
  revert w Hq. induction q as [|c q IH]; intros w Hq.
  - simpl. unfold block. now apply Hblock.
  - destruct (ping drv (pings w)) as [e|] eqn:Hping.
    + destruct q as [|c2 q2].
      * rewrite (get_conn_loop_fallback c [] w c e Hq Hping). cbv zeta.
        now apply Hfall.
      * rewrite (get_conn_loop_next c (c2 :: q2) w c c2 q2 e Hq Hping). cbv zeta.
        apply (Hnext w c c2 q2 e _ Hq Hping); [reflexivity|].
        apply IH. reflexivity.
    + rewrite (get_conn_loop_alive c q w c q Hq Hping). now apply Halive.
Qed.

End GetConn.

Section GetConnFacts.

Variable cfg : Config.
Variable drv : Driver.

(** [get_conn] releases nothing and never calls [time.sleep] at
    [execute]'s site. *)
Lemma get_conn_quiet (w : World) :
  release_calls (events (get_conn cfg drv w)) = []
  /\ sleeps_at InExecute (events (get_conn cfg drv w)) = []
  /\ sleep_calls_at InExecute (events (get_conn cfg drv w)) = [].
Proof.
  apply (get_conn_cases cfg drv
           (fun _ r => release_calls (events r) = []
                       /\ sleeps_at InExecute (events r) = []
                       /\ sleep_calls_at InExecute (events r) = [])).
  - intros; simpl; auto.
  - intros; simpl; auto.
  - intros w0 c e r _ _ ->. cbn [events].
    rewrite release_calls_app, sleeps_at_app, sleep_calls_at_app. simpl.
    apply create_conn_loop_quiet.
  - intros w0 c c2 q2 e r _ _ _ (IH1 & IH2 & IH3). cbn [events].
    rewrite release_calls_app, sleeps_at_app, sleep_calls_at_app. simpl. auto.
Qed.

(** What [get_conn] raises is never a pymysql error. *)
Lemma get_conn_raises (w : World) (e : Exn) :
  outcome (get_conn cfg drv w) = Raise e -> is_MySQLError e = false.
Proof.
  revert e.
  apply (get_conn_cases cfg drv
           (fun _ r => forall e, outcome r = Raise e -> is_MySQLError e = false)).
  - intros; discriminate.
  - intros; discriminate.
  - intros w0 c e r _ _ -> e0 H. cbn [outcome] in H.
    eapply create_conn_loop_raises. exact H.
  - intros w0 c c2 q2 e r _ _ _ IH e0 H. apply IH. exact H.
Qed.

(** [get_conn] never returns Python's [None]. *)
Lemma get_conn_returns_conn (w : World) :
  outcome (get_conn cfg drv w) <> Return None.
Proof.
  apply (get_conn_cases cfg drv (fun _ r => outcome r <> Return None)).
  - intros; discriminate.
  - intros; discriminate.
  - intros w0 c e r _ _ ->. cbn [outcome].
    apply create_conn_loop_invoked. simpl. lia.
  - intros w0 c c2 q2 e r _ _ _ IH. exact IH.
Qed.

End GetConnFacts.

(** C4, as the code has it.  When the probe of the dequeued connection
    fails, [get_conn] logs the loss and closes that connection.  If the
    queue is then empty it calls the factory and its result is the
    factory's result, handed over without being enqueued: the queue is
    empty afterwards.  If another connection is still queued, the factory
    is not called at that point: the next queued connection is taken out
    and probed, and [get_conn] goes on from there as a call on the rest of
    the queue; when that probe succeeds the connection is returned and
    the factory has not been called at all. *)
Theorem get_conn_after_failed_probe
    (cfg : Config) (drv : Driver) (w : World) (c : Conn) (q : list Conn) (e : Exn) :
  pool w = c :: q ->
  ping drv (pings w) = Some e ->
  let r := get_conn cfg drv w in
  let pre := [EvGet c; EvPing c (Some e); EvLog (LogConnectionLost e); EvClose c] in
  (q = [] ->
   let f := create_conn cfg drv 3 (after_ping [] w) in
   outcome r = outcome f
   /\ events r = pre ++ events f
   /\ connect_calls (events f) <> []
   /\ pool (final r) = [])
  /\
  (forall (c2 : Conn) (q2 : list Conn),
      q = c2 :: q2 ->
      let r2 := get_conn cfg drv (after_ping q w) in
      outcome r = outcome r2
      /\ events r = pre ++ events r2
      /\ (exists tl, events r2 = EvGet c2 :: EvPing c2 (ping drv (S (pings w))) :: tl)
      /\ (ping drv (S (pings w)) = None ->
          outcome r = Return (Some c2)
          /\ events r = pre ++ [EvGet c2; EvPing c2 None]
          /\ connect_calls (events r) = []
          /\ pool (final r) = q2)).
Proof.
  intros Hp Hping r pre. split.
  - intros ->. cbv zeta.
    assert (Hr : r = let f := create_conn cfg drv 3 (after_ping [] w) in
                     mkRun (outcome f) (final f) (pre ++ events f)).
    { subst r. unfold get_conn. rewrite Hp.
      apply (get_conn_loop_fallback cfg drv c [] w c e Hp Hping). }
    cbv zeta in Hr. rewrite Hr. clear Hr. clearbody r.
    cbn [outcome events final]. repeat split.
    + apply create_conn_loop_invoked. simpl. lia.
    + unfold create_conn. rewrite create_conn_loop_pool. reflexivity.
  - intros c2 q2 ->. cbv zeta.
    assert (Hr : r = let r2 := get_conn cfg drv (after_ping (c2 :: q2) w) in
                     mkRun (outcome r2) (final r2) (pre ++ events r2)).
    { subst r. unfold get_conn at 1. rewrite Hp.
      apply (get_conn_loop_next cfg drv c (c2 :: q2) w c c2 q2 e Hp Hping). }
    cbv zeta in Hr. rewrite Hr. clear Hr. clearbody r.
    cbn [outcome events final].
    split; [reflexivity|]. split; [reflexivity|].
    unfold get_conn. cbn [pool after_ping].
    destruct (ping drv (S (pings w))) as [e2|] eqn:Hping2.
    + split; [|discriminate].
      destruct q2 as [|c3 q3].
      * rewrite (get_conn_loop_fallback cfg drv c2 [] (after_ping [c2] w) c2 e2 eq_refl Hping2).
        cbn [events]. eexists. reflexivity.
      * rewrite (get_conn_loop_next cfg drv c2 (c3 :: q3) (after_ping (c2 :: c3 :: q3) w) c2 c3 q3 e2 eq_refl Hping2).
        cbn [events]. eexists. reflexivity.
    + rewrite (get_conn_loop_alive cfg drv c2 q2 (after_ping (c2 :: q2) w) c2 q2 eq_refl Hping2).
      cbn [outcome events final]. split; [eexists; reflexivity|].
      intros _. repeat split.
Qed.

Lemma get_conn_after_failed_probe_witness :
  (outcome (get_conn sample_cfg stale (mkWorld [0%nat] 1 1 0 0)) = Return (Some 1%nat)
   /\ pool (final (get_conn sample_cfg stale (mkWorld [0%nat] 1 1 0 0))) = [])
  /\ (outcome (get_conn sample_cfg one_dead sample_world) = Return (Some 1%nat)
      /\ connect_calls (events (get_conn sample_cfg one_dead sample_world)) = []
      /\ pool (final (get_conn sample_cfg one_dead sample_world)) = []).
Proof.
  split.
  - destruct (get_conn_after_failed_probe sample_cfg stale (mkWorld [0%nat] 1 1 0 0)
                0%nat [] (OperationalError "2006") eq_refl eq_refl) as [H _].
    destruct (H eq_refl) as (Ho & _ & _ & Hpool).
    split; [rewrite Ho; vm_compute; reflexivity|exact Hpool].
  - destruct (get_conn_after_failed_probe sample_cfg one_dead sample_world
                0%nat [1%nat] (OperationalError "2006") eq_refl eq_refl) as [_ H].
    destruct (H 1%nat [] eq_refl) as (_ & _ & _ & Hok).
    destruct (Hok eq_refl) as (Ho & _ & Hc & Hpool).
    repeat split; assumption.
Defined.

(** C4, the claim as stated fails: with two queued connections that are
    both dead, the probe of the first fails while another connection is
    still queued, and yet the factory is called and the connection
    returned is none of the queued ones. *)
Lemma get_conn_two_dead_calls_factory :
  let r := get_conn sample_cfg stale sample_world in
  pool sample_world = [0%nat; 1%nat]
  /\ ping stale (pings sample_world) = Some (OperationalError "2006")
  /\ connect_calls (events r) = [inr 2%nat]
  /\ outcome r = Return (Some 2%nat)
  /\ ~ (connect_calls (events r) = []
        /\ exists c', In c' (pool sample_world) /\ outcome r = Return (Some c')).
Proof.
  cbv zeta.
  assert (Hc : connect_calls (events (get_conn sample_cfg stale sample_world))
               = [inr 2%nat]) by (vm_compute; reflexivity).
  assert (Ho : outcome (get_conn sample_cfg stale sample_world)
               = Return (Some 2%nat)) by (vm_compute; reflexivity).
  rewrite Hc, Ho. repeat split.
  intros [H _]. discriminate H.
Qed.

(** ** release_conn *)

(** C6, as the code has it.  For a pool built with [pool_size >= 1],
    [release_conn] always returns (it neither blocks nor raises); when
    fewer than [pool_size] connections are queued the connection is
    appended to the queue and not closed; when [pool_size] (or more) are
    queued it is closed and the queue is left as it was; and a queue that
    holds at most [pool_size] connections still does afterwards. *)
Theorem release_conn_enqueues_or_closes (cfg : Config) (c : Conn) (w : World) :
  0 < pool_size cfg ->
  let r := release_conn cfg c w in
  outcome r = Return tt
  /\ (Z.of_nat (List.length (pool w)) < pool_size cfg ->
      pool (final r) = pool w ++ [c] /\ events r = [EvPutNowait c true])
  /\ (pool_size cfg <= Z.of_nat (List.length (pool w)) ->
      pool (final r) = pool w /\ events r = [EvPutNowait c false; EvClose c])
  /\ (Z.of_nat (List.length (pool w)) <= pool_size cfg ->
      Z.of_nat (List.length (pool (final r))) <= pool_size cfg).
Proof.
  intros Hpos. cbv zeta.
  unfold release_conn, bind, pool_put_nowait, queue_full, conn_close, emit, ret.
  destruct (0 <? pool_size cfg) eqn:H0; [|apply Z.ltb_ge in H0; lia].
  destruct (pool_size cfg <=? Z.of_nat (List.length (pool w))) eqn:Hfull;
    cbn [andb outcome final events app pool set_pool].
  - apply Z.leb_le in Hfull. repeat split; try lia.
  - apply Z.leb_gt in Hfull. repeat split; try lia.
    rewrite length_app. simpl. lia.
Qed.

Lemma release_conn_enqueues_or_closes_witness :
  events (release_conn sample_cfg 5%nat sample_world) = [EvPutNowait 5%nat false; EvClose 5%nat]
  /\ pool (final (release_conn sample_cfg 5%nat sample_world)) = [0%nat; 1%nat]
  /\ pool (final (release_conn sample_cfg 5%nat empty_world)) = [5%nat].
Proof.
  destruct (release_conn_enqueues_or_closes sample_cfg 5%nat sample_world)
    as (_ & _ & Hfull & _); [simpl; lia|].
  destruct Hfull as [Hp He]; [simpl; lia|].
  destruct (release_conn_enqueues_or_closes sample_cfg 5%nat empty_world)
    as (_ & Hfree & _ & _); [simpl; lia|].
  destruct Hfree as [Hp' _]; [simpl; lia|].
  repeat split; assumption.
Defined.

(** C6, the claim as stated fails: [pool_size = 0] makes
    [Queue(maxsize=0)], which is unbounded.  The queue then holds
    [pool_size] entries from the start, and yet a released connection is
    enqueued, not closed, and the queued count exceeds [pool_size]. *)
Lemma release_conn_unbounded_when_pool_size_zero :
  let r := release_conn zero_cfg 5%nat empty_world in
  Z.of_nat (List.length (pool empty_world)) = pool_size zero_cfg
  /\ events r = [EvPutNowait 5%nat true]
  /\ close_calls (events r) = []
  /\ pool_size zero_cfg < Z.of_nat (List.length (pool (final r))).
Proof.
  cbv zeta. repeat split; vm_compute; reflexivity.
Qed.


(** ** execute: one attempt *)

Lemma sleep_event_calls (site : SleepSite) (d : float) :
  sleep_calls_at site [sleep_event site d] = [d].
Proof.
  unfold sleep_event.
  destruct (time_sleep_error d); destruct site; reflexivity.
Qed.

Lemma sleep_event_sleeps (site : SleepSite) (d : float) :
  sleeps_at site [sleep_event site d]
  = match time_sleep_error d with Some _ => [] | None => [d] end.
Proof.
  unfold sleep_event.
  destruct (time_sleep_error d); destruct site; reflexivity.
Qed.

Lemma sleep_event_releases (site : SleepSite) (d : float) :
  release_calls [sleep_event site d] = [].
Proof.
  unfold sleep_event. destruct (time_sleep_error d); reflexivity.
Qed.

Section AttemptFacts.

Variable cfg : Config.
Variable drv : Driver.
Variable sql : string.
Variable params : PyVal.
Variable fetch : bool.
Variable want_lastrowid : bool.

Let base : float := retry_backoff_base cfg.
Let attempt' := attempt cfg drv sql params fetch want_lastrowid.

(** Issuing the statement releases nothing, does not call [time.sleep],
    and returns or raises. *)
Lemma issue_quiet (c : Conn) (w : World) :
  let r := issue drv sql params fetch want_lastrowid c w in
  release_calls (events r) = []
  /\ sleeps_at InExecute (events r) = []
  /\ sleep_calls_at InExecute (events r) = []
  /\ outcome r <> Blocked.
Proof.
  cbv zeta.
  unfold issue, bind, driver_execute, driver_fetchall, driver_commit, ret.
  destruct (cursor_execute drv (statements w)) as [e|];
    cbn [outcome final events app].
  - repeat split; discriminate.
  - destruct fetch.
    + destruct (fetchall drv (statements w)) as [e|rows];
        cbn [outcome final events app].
      * repeat split; discriminate.
      * destruct (commit drv (statements w)); cbn [outcome final events app];
          repeat split; discriminate.
    + destruct want_lastrowid; cbn [outcome final events app];
        destruct (commit drv (statements w)); cbn [outcome final events app];
          repeat split; discriminate.
Qed.

(** [release_conn] makes one call of [put_nowait], does not call
    [time.sleep], and returns. *)
Lemma release_conn_once (c : Conn) (w : World) :
  let r := release_conn cfg c w in
  release_calls (events r) = [c]
  /\ sleeps_at InExecute (events r) = []
  /\ sleep_calls_at InExecute (events r) = []
  /\ outcome r = Return tt.
Proof.
  cbv zeta. unfold release_conn, bind, pool_put_nowait, conn_close, emit, ret.
  destruct (queue_full (pool_size cfg) (pool w)); cbn; auto.
Qed.

(** The two ways [release_conn] goes. *)
Lemma release_conn_room (c : Conn) (w : World) :
  queue_full (pool_size cfg) (pool w) = false ->
  release_conn cfg c w
  = mkRun (Return tt) (set_pool (pool w ++ [c]) w) [EvPutNowait c true].
Proof.
  intro H. unfold release_conn, bind, pool_put_nowait, conn_close, emit, ret.
  rewrite H. reflexivity.
Qed.

Lemma release_conn_full (c : Conn) (w : World) :
  queue_full (pool_size cfg) (pool w) = true ->
  release_conn cfg c w
  = mkRun (Return tt) w [EvPutNowait c false; EvClose c].
Proof.
  intro H. unfold release_conn, bind, pool_put_nowait, conn_close, emit, ret.
  rewrite H. reflexivity.
Qed.

(** The [finally] clause: the release of [conn], if any, then one call
    of [time.sleep], which decides how the clause ends. *)
Lemma finally_block_shape (conn : option Conn) (d : float) (w : World) :
  let f := finally_block cfg conn d w in
  raised (outcome f) = time_sleep_error d
  /\ outcome f <> Blocked
  /\ match conn with
     | Some c =>
         events f = events (release_conn cfg c w) ++ [sleep_event InExecute d]
         /\ final f = final (release_conn cfg c w)
     | None => events f = [sleep_event InExecute d] /\ final f = w
     end.
Proof.
  cbv zeta. destruct conn as [c|];
    unfold finally_block, bind, sleep, sleep_event, emit.
  - destruct (release_conn_once c w) as (_ & _ & _ & Ho).
    rewrite Ho. cbn [outcome events final].
    destruct (time_sleep_error d); cbn [outcome events final raised];
      repeat split; discriminate.
  - unfold ret. cbn [outcome events final app].
    destruct (time_sleep_error d); cbn [outcome events final raised];
      repeat split; discriminate.
Qed.

Lemma handler_quiet (e : Exn) (w : World) :
  release_calls (events (handler sql params e w)) = []
  /\ sleeps_at InExecute (events (handler sql params e w)) = []
  /\ sleep_calls_at InExecute (events (handler sql params e w)) = []
  /\ final (handler sql params e w) = w.
Proof.
  unfold handler, log, emit.
  destruct (is_OperationalError e); [|destruct (is_MySQLError e)]; cbn; auto.
Qed.

(** The [try] block: [conn] is what [get_conn] returned, nothing is
    released, [time.sleep] is not called at [execute]'s site, and only
    [get_conn] can block. *)
Lemma try_block_facts (w : World) :
  let t := try_block cfg drv sql params fetch want_lastrowid w in
  fst t = match outcome (get_conn cfg drv w) with
          | Return (Some c) => Some c
          | _ => None
          end
  /\ release_calls (events (snd t)) = []
  /\ sleeps_at InExecute (events (snd t)) = []
  /\ sleep_calls_at InExecute (events (snd t)) = []
  /\ (outcome (snd t) = Blocked -> fst t = None)
  /\ (forall e, outcome (snd t) = Raise e -> is_MySQLError e = true ->
        exists c, fst t = Some c)
  /\ (forall v, outcome (snd t) = Return v -> exists c, fst t = Some c).
Proof.
  cbv zeta. unfold try_block.
  destruct (get_conn_quiet cfg drv w) as (Hr & Hs & Hc).
  pose proof (get_conn_raises cfg drv w) as Hraise.
  destruct (outcome (get_conn cfg drv w)) as [[c|]|e|]; cbn [fst snd outcome events].
  - destruct (issue_quiet c (final (get_conn cfg drv w))) as (Hr' & Hs' & Hc' & Hb).
    rewrite release_calls_app, sleeps_at_app, sleep_calls_at_app,
      Hr, Hs, Hc, Hr', Hs', Hc'.
    repeat split; auto.
    + intro H. contradiction.
    + intros; eauto.
    + intros; eauto.
  - repeat split; auto; try discriminate.
    intros e H. injection H as <-. discriminate.
  - repeat split; auto; try discriminate.
    intros e0 H He. injection H as <-.
    rewrite (Hraise e eq_refl) in He. discriminate.
  - repeat split; auto; discriminate.
Qed.

(** One turn of the loop of [execute], summed up: what ran before the
    [finally] clause released nothing and did not call [time.sleep];
    the clause hands [conn], if any, to [release_conn] and then calls
    [time.sleep(delay)], and the turn ends in the state [release_conn]
    left. *)
Lemma attempt_shape (d : float) (w : World) :
  let a := attempt' d w in
  att_body a <> Blocked ->
  att_raised a = time_sleep_error d
  /\ exists pre w',
       release_calls pre = []
       /\ sleeps_at InExecute pre = []
       /\ sleep_calls_at InExecute pre = []
       /\ match att_conn a with
          | Some c =>
              att_events a
              = pre ++ events (release_conn cfg c w') ++ [sleep_event InExecute d]
              /\ att_final a = final (release_conn cfg c w')
          | None =>
              att_events a = pre ++ [sleep_event InExecute d]
              /\ att_final a = w'
          end.
Proof.
  cbv zeta. unfold attempt', attempt.
  destruct (try_block_facts w) as (_ & Hr & Hs & Hc & _).
  destruct (try_block cfg drv sql params fetch want_lastrowid w) as [conn r].
  cbn [fst snd] in *.
  destruct (outcome r) as [v|e|] eqn:Ho.
  - destruct (finally_block_shape conn d (final r)) as (Hra & _ & Hsh).
    cbn [att_conn att_body att_events att_raised att_final]. intros _.
    split; [exact Hra|]. exists (events r), (final r).
    repeat (split; [assumption|]).
    destruct conn as [c|]; destruct Hsh as [-> ->]; auto.
  - destruct (handler_quiet e (final r)) as (Hhr & Hhs & Hhc & Hhf).
    destruct (finally_block_shape conn d (final (handler sql params e (final r))))
      as (Hra & _ & Hsh).
    cbn [att_conn att_body att_events att_raised att_final]. intros _.
    split; [exact Hra|].
    exists (events r ++ events (handler sql params e (final r))),
           (final (handler sql params e (final r))).
    rewrite release_calls_app, sleeps_at_app, sleep_calls_at_app,
      Hr, Hs, Hc, Hhr, Hhs, Hhc.
    repeat (split; [reflexivity|]).
    destruct conn as [c|]; destruct Hsh as [-> ->]; rewrite <- !app_assoc; auto.
  - cbn [att_body]. congruence.
Qed.

(** One turn of the loop of [execute]: the connection, and what the
    events hold. *)
Lemma attempt_facts (d : float) (w : World) :
  let a := attempt' d w in
  att_conn a = match outcome (get_conn cfg drv w) with
               | Return (Some c) => Some c
               | _ => None
               end
  /\ (att_body a = Blocked ->
      release_calls (att_events a) = []
      /\ sleeps_at InExecute (att_events a) = []
      /\ sleep_calls_at InExecute (att_events a) = []
      /\ att_conn a = None
      /\ att_raised a = None)
  /\ (att_body a <> Blocked ->
      att_raised a = time_sleep_error d
      /\ exists pre,
           att_events a = pre ++ [sleep_event InExecute d]
           /\ release_calls pre = match att_conn a with Some c => [c] | None => [] end
           /\ sleeps_at InExecute pre = []
           /\ sleep_calls_at InExecute pre = [])
  /\ (forall e, att_body a = Raise e -> is_MySQLError e = true ->
        exists c, att_conn a = Some c)
  /\ (forall v, att_body a = Return v -> exists c, att_conn a = Some c).
Proof.
  cbv zeta. split; [|split; [|split]].
  - unfold attempt', attempt.
    destruct (try_block_facts w) as (Hconn & _).
    destruct (try_block cfg drv sql params fetch want_lastrowid w) as [conn r].
    cbn [fst snd] in *. destruct (outcome r); exact Hconn.
  - unfold attempt', attempt.
    destruct (try_block_facts w) as (_ & Hr & Hs & Hc & Hb & _).
    destruct (try_block cfg drv sql params fetch want_lastrowid w) as [conn r].
    cbn [fst snd] in *.
    destruct (outcome r) as [v|e|];
      cbn [att_conn att_body att_events att_raised]; try discriminate.
    intros _. rewrite (Hb eq_refl). auto.
  - intro Hnb. destruct (attempt_shape d w Hnb) as (Hra & pre & w' & Hr & Hs & Hc & Hsh).
    fold attempt' in Hsh. split; [exact Hra|].
    destruct (att_conn (attempt' d w)) as [c|]; destruct Hsh as [Hev _].
    + destruct (release_conn_once c w') as (Hr' & Hs' & Hc' & _).
      exists (pre ++ events (release_conn cfg c w')).
      rewrite Hev, <- app_assoc. split; [reflexivity|].
      rewrite release_calls_app, sleeps_at_app, sleep_calls_at_app,
        Hr, Hs, Hc, Hr', Hs', Hc'. auto.
    + exists pre. auto.
  - unfold attempt', attempt.
    destruct (try_block_facts w) as (_ & _ & _ & _ & _ & Hm & Hv).
    destruct (try_block cfg drv sql params fetch want_lastrowid w) as [conn r].
    cbn [fst snd] in *.
    destruct (outcome r) as [v|e|] eqn:Ho;
      cbn [att_conn att_body]; split; try discriminate.
    + intros v0 _. eauto.
    + intros e0 H He. injection H as <-. eauto.
Qed.

(** Every turn releases exactly the connection [get_conn] handed it. *)
Lemma attempt_releases (d : float) (w : World) :
  release_calls (att_events (attempt' d w))
  = match att_conn (attempt' d w) with
    | Some c => [c]
    | None => []
    end.
Proof.
  destruct (attempt_facts d w) as (Hconn & Hblocked & Hrun & _ & _).
  destruct (att_body (attempt' d w)) as [v|e|] eqn:Hbody.
  - destruct Hrun as (_ & pre & Hev & Hrel & _); [discriminate|].
    rewrite Hev, release_calls_app, Hrel, sleep_event_releases.
    apply app_nil_r.
  - destruct Hrun as (_ & pre & Hev & Hrel & _); [discriminate|].
    rewrite Hev, release_calls_app, Hrel, sleep_event_releases.
    apply app_nil_r.
  - destruct Hblocked as (Hr & _ & _ & Hnone & _); [reflexivity|].
    rewrite Hr, Hnone. reflexivity.
Qed.

(** Every turn that is not blocked calls [time.sleep] once at
    [execute]'s site, with the current delay. *)
Lemma attempt_sleep_calls (d : float) (w : World) :
  att_body (attempt' d w) <> Blocked ->
  sleep_calls_at InExecute (att_events (attempt' d w)) = [d].
Proof.
  intro H. destruct (attempt_facts d w) as (_ & _ & Hrun & _ & _).
  destruct (Hrun H) as (_ & pre & Hev & _ & _ & Hc).
  rewrite Hev, sleep_calls_at_app, Hc, sleep_event_calls. reflexivity.
Qed.


End AttemptFacts.

(** ** execute: the loop *)

Section ExecuteFacts.

Variable cfg : Config.
Variable drv : Driver.
Variable sql : string.
Variable params : PyVal.
Variable fetch : bool.
Variable want_lastrowid : bool.

Let base : float := retry_backoff_base cfg.
Let attempt' := attempt cfg drv sql params fetch want_lastrowid.
Let loop := execute_loop cfg drv sql params fetch want_lastrowid.

Lemma execute_loop_step (n : nat) (d : float) (w : World) :
  loop (S n) d w
  = match att_raised (attempt' d w) with
    | Some e' => ([attempt' d w], Raise e')
    | None =>
        match att_body (attempt' d w) with
        | Return v => ([attempt' d w], Return v)
        | Blocked => ([attempt' d w], Blocked)
        | Raise e =>
            if is_OperationalError e then
              (attempt' d w :: fst (loop n (d * base)%float (att_final (attempt' d w))),
               snd (loop n (d * base)%float (att_final (attempt' d w))))
            else ([attempt' d w], Raise e)
        end
    end.
Proof.
  unfold loop, attempt', base. cbn [execute_loop].
  destruct (att_raised (attempt cfg drv sql params fetch want_lastrowid d w));
    [reflexivity|].
  destruct (att_body (attempt cfg drv sql params fetch want_lastrowid d w)) as [v|e|];
    try reflexivity.
  destruct (is_OperationalError e); [|reflexivity].
  destruct (execute_loop cfg drv sql params fetch want_lastrowid n
              (d * retry_backoff_base cfg)%float
              (att_final (attempt cfg drv sql params fetch want_lastrowid d w)));
    reflexivity.
Qed.

(** The attempts of a call are turns of the loop body, the [i]-th with
    the delay the loop has reached by then. *)
Lemma execute_loop_nth (n : nat) :
  forall (i : nat) (d : float) (w : World) (a : Attempt),
    nth_error (fst (loop n d w)) i = Some a ->
    exists w', a = attempt' (delay_at base i d) w'.
Proof.
  induction n as [|n IH]; intros i d w a; [destruct i; discriminate|].
  rewrite execute_loop_step.
  assert (Hone : nth_error [attempt' d w] i = Some a ->
                 exists w', a = attempt' (delay_at base i d) w').
  { destruct i as [|i]; [|destruct i; discriminate].
    intro H. injection H as <-. exists w. reflexivity. }
  destruct (att_raised (attempt' d w)); [exact Hone|].
  destruct (att_body (attempt' d w)) as [v|e|]; try exact Hone.
  destruct (is_OperationalError e); [|exact Hone].
  cbn [fst]. destruct i as [|i].
  - intro H. injection H as <-. exists w. reflexivity.
  - intro H. apply (IH i _ _ a H).
Qed.

Lemma execute_loop_attempts (n : nat) (d : float) (w : World) :
  Forall (fun a => exists d' w', a = attempt' d' w') (fst (loop n d w)).
Proof.
  apply Forall_forall. intros a Hin.
  destruct (In_nth_error _ _ Hin) as [i Hi].
  destruct (execute_loop_nth n i d w a Hi) as [w' ->]. eauto.
Qed.



Lemma execute_outcome (retries : Z) (w : World) :
  outcome (execute cfg drv sql params fetch want_lastrowid retries w)
  = snd (loop (Z.to_nat retries) base w).
Proof.
  unfold execute, loop, base.
  destruct (execute_loop cfg drv sql params fetch want_lastrowid
              (Z.to_nat retries) (retry_backoff_base cfg) w); reflexivity.
Qed.

Lemma execute_events (retries : Z) (w : World) :
  events (execute cfg drv sql params fetch want_lastrowid retries w)
  = flat_map att_events
      (attempts_of cfg drv sql params fetch want_lastrowid retries w).
Proof.
  unfold execute, attempts_of.
  destruct (execute_loop cfg drv sql params fetch want_lastrowid
              (Z.to_nat retries) (retry_backoff_base cfg) w); reflexivity.
Qed.

End ExecuteFacts.

(** ** execute: the claims *)








(** C3.  Every attempt of a call of [execute] is a turn of the loop body
    started in some state with some delay.  In that turn the connection
    [get_conn] returned is handed to [release_conn] exactly once, in the
    [finally] clause, just before the call of [time.sleep]; and that
    release either puts the connection at the back of the queue, where
    it is when the turn ends, or, the queue being full, closes it.  A
    turn in which [get_conn] returned no connection (it raised, or it is
    still waiting on the empty queue) releases nothing.  This holds
    whether the [try] block returned or raised, whatever it raised.  The
    events of the call are those of its attempts. *)
Theorem execute_releases_each_connection_once
    (cfg : Config) (drv : Driver) (sql : string) (params : PyVal)
    (fetch want_lastrowid : bool) (retries : Z) (w : World) :
  Forall
    (fun a =>
       exists d' w',
         a = attempt cfg drv sql params fetch want_lastrowid d' w'
         /\ att_conn a = match outcome (get_conn cfg drv w') with
                         | Return (Some c) => Some c
                         | _ => None
                         end
         /\ release_calls (att_events a)
            = match att_conn a with Some c => [c] | None => [] end
         /\ (forall c, att_conn a = Some c ->
               exists pre,
                 release_calls pre = []
                 /\ ((att_events a
                      = pre ++ [EvPutNowait c true; sleep_event InExecute d']
                      /\ exists q, pool (att_final a) = q ++ [c])
                     \/ att_events a
                        = pre ++ [EvPutNowait c false; EvClose c;
                                  sleep_event InExecute d'])))
    (attempts_of cfg drv sql params fetch want_lastrowid retries w)
  /\ events (execute cfg drv sql params fetch want_lastrowid retries w)
     = flat_map att_events
         (attempts_of cfg drv sql params fetch want_lastrowid retries w).
Proof.
  split; [|apply execute_events].
  unfold attempts_of.
  pose proof (execute_loop_attempts cfg drv sql params fetch want_lastrowid
                (Z.to_nat retries) (retry_backoff_base cfg) w) as Hatt.
  eapply Forall_impl; [|exact Hatt].
  intros a (d' & w' & ->). exists d', w'. split; [reflexivity|].
  destruct (attempt_facts cfg drv sql params fetch want_lastrowid d' w')
    as (Hconn & Hblk & _).
  split; [exact Hconn|]. split; [apply attempt_releases|].
  intros c Hc.
  destruct (attempt_shape cfg drv sql params fetch want_lastrowid d' w')
    as (_ & pre & w0 & Hr & _ & _ & Hsh).
  { intro Hb. destruct (Hblk Hb) as (_ & _ & _ & Hnone & _). congruence. }
  rewrite Hc in Hsh. destruct Hsh as [Hev Hfin].
  exists pre. split; [exact Hr|].
  destruct (queue_full (pool_size cfg) (pool w0)) eqn:Hfull.
  - right. rewrite Hev, (release_conn_full cfg c w0 Hfull). reflexivity.
  - left. rewrite Hev, Hfin, (release_conn_room cfg c w0 Hfull).
    split; [reflexivity|]. exists (pool w0). reflexivity.
Qed.

Lemma execute_releases_each_connection_once_witness :
  Forall
    (fun a => release_calls (att_events a)
              = match att_conn a with Some c => [c] | None => [] end)
    (attempts_of sample_cfg flaky "SELECT 1" VNone false false 3 sample_world)
  /\ release_calls
       (events (execute sample_cfg flaky "SELECT 1" VNone false false 3 sample_world))
     = [0%nat; 1%nat].
Proof.
  destruct (execute_releases_each_connection_once
              sample_cfg flaky "SELECT 1" VNone false false 3 sample_world)
    as [Hall Hev].
  split.
  - eapply Forall_impl; [|exact Hall].
    intros a (d' & w' & _ & _ & Hrel & _). exact Hrel.
  - rewrite Hev. vm_compute. reflexivity.
Defined.

(** C8, as the code has it.  When the [try] block of the first attempt
    of a call of [execute] returns, the call makes no other attempt and
    calls [time.sleep] exactly once, at line 119, with the base delay;
    that call is the last thing [execute] does, after the connection has
    been handed to [release_conn].  When [time.sleep] returns, the call
    has slept for the base delay and returns the result of the attempt;
    when [time.sleep] raises, there was no wait, the result is lost and
    [execute] raises that exception. *)
Theorem execute_success_sleeps_base_delay
    (cfg : Config) (drv : Driver) (sql : string) (params : PyVal)
    (fetch want_lastrowid : bool) (retries : Z) (w : World)
    (a : Attempt) (v : PyVal) :
  hd_error (attempts_of cfg drv sql params fetch want_lastrowid retries w) = Some a ->
  att_body a = Return v ->
  let r := execute cfg drv sql params fetch want_lastrowid retries w in
  let b := retry_backoff_base cfg in
  attempts_of cfg drv sql params fetch want_lastrowid retries w = [a]
  /\ sleep_calls_at InExecute (events r) = [b]
  /\ (exists pre c,
        events r = pre ++ [sleep_event InExecute b]
        /\ att_conn a = Some c
        /\ release_calls pre = [c]
        /\ sleep_calls_at InExecute pre = [])
  /\ (time_sleep_error b = None ->
      outcome r = Return v /\ sleeps_at InExecute (events r) = [b])
  /\ (forall e, time_sleep_error b = Some e ->
      outcome r = Raise e /\ sleeps_at InExecute (events r) = []).
Proof.
  intros Hhd Hbody r b. subst r b.
  rewrite execute_outcome, execute_events. unfold attempts_of in *.
  destruct (Z.to_nat retries) as [|n]; [discriminate|].
  rewrite execute_loop_step in *.
  set (a0 := attempt cfg drv sql params fetch want_lastrowid
               (retry_backoff_base cfg) w) in *.
  assert (Ha : a = a0).
  { destruct (att_raised a0); [cbn [fst hd_error] in Hhd; congruence|].
    destruct (att_body a0) as [v0|e|]; [| |];
      try (cbn [fst hd_error] in Hhd; congruence).
    destruct (is_OperationalError e); cbn [fst hd_error] in Hhd; congruence. }
  subst a.
  destruct (attempt_facts cfg drv sql params fetch want_lastrowid
              (retry_backoff_base cfg) w) as (_ & _ & Hrun & _ & Hv).
  fold a0 in Hrun, Hv.
  destruct (Hv v Hbody) as [c Hc].
  destruct Hrun as (Hra & pre & Hev & Hrel & Hsl & Hsc); [congruence|].
  assert (Hatts : fst (match att_raised a0 with
                       | Some e' => ([a0], Raise e')
                       | None => ([a0], Return v)
                       end) = [a0])
    by (destruct (att_raised a0); reflexivity).
  rewrite Hbody. rewrite Hatts. cbn [flat_map]. rewrite app_nil_r.
  split; [reflexivity|]. split; [|split; [|split]].
  - rewrite Hev, sleep_calls_at_app, Hsc, sleep_event_calls. reflexivity.
  - exists pre, c. rewrite Hc in Hrel. auto.
  - intro Hnone. rewrite Hra, Hnone. cbn [snd]. split; [reflexivity|].
    rewrite Hev, sleeps_at_app, Hsl, sleep_event_sleeps, Hnone. reflexivity.
  - intros e Hsome. rewrite Hra, Hsome. cbn [snd]. split; [reflexivity|].
    rewrite Hev, sleeps_at_app, Hsl, sleep_event_sleeps, Hsome. reflexivity.
Qed.

Lemma execute_success_sleeps_base_delay_witness :
  (outcome (execute sample_cfg healthy "SELECT 1" VNone true false 3 sample_world)
   = Return (VList [VInt 1])
   /\ sleeps_at InExecute
        (events (execute sample_cfg healthy "SELECT 1" VNone true false 3
                   sample_world))
      = [1.5]%float)
  /\ (outcome (execute huge_cfg healthy "SELECT 1" VNone true false 3 sample_world)
      = Raise (OtherException "OverflowError")
      /\ sleeps_at InExecute
           (events (execute huge_cfg healthy "SELECT 1" VNone true false 3
                      sample_world))
         = []).
Proof.
  split.
  - destruct (execute_success_sleeps_base_delay
                sample_cfg healthy "SELECT 1" VNone true false 3 sample_world
                (attempt sample_cfg healthy "SELECT 1" VNone true false 1.5%float
                   sample_world)
                (VList [VInt 1]))
      as (_ & _ & _ & Hok & _).
    + vm_compute. reflexivity.
    + vm_compute. reflexivity.
    + apply Hok. vm_compute. reflexivity.
  - destruct (execute_success_sleeps_base_delay
                huge_cfg healthy "SELECT 1" VNone true false 3 sample_world
                (attempt huge_cfg healthy "SELECT 1" VNone true false 1e10%float
                   sample_world)
                (VList [VInt 1]))
      as (_ & _ & _ & _ & Hbad).
    + vm_compute. reflexivity.
    + vm_compute. reflexivity.
    + apply Hbad. vm_compute. reflexivity.
Defined.

(** C8, the claim as stated fails: with [retry_backoff_base = 1e10] the
    statement runs, the rows are read and the commit succeeds, but
    [time.sleep(1e10)] raises OverflowError in the [finally] clause: the
    call does not wait at all and does not return the result. *)
Lemma execute_success_lost_when_sleep_raises :
  let r := execute huge_cfg healthy "SELECT 1" VNone true false 3 sample_world in
  map att_body (attempts_of huge_cfg healthy "SELECT 1" VNone true false 3
                  sample_world)
  = [Return (VList [VInt 1])]
  /\ outcome r = Raise (OtherException "OverflowError")
  /\ outcome r <> Return (VList [VInt 1])
  /\ sleeps_at InExecute (events r) = [].
Proof.
  cbv zeta.
  assert (Ho : outcome (execute huge_cfg healthy "SELECT 1" VNone true false 3
                          sample_world)
               = Raise (OtherException "OverflowError")) by (vm_compute; reflexivity).
  split; [vm_compute; reflexivity|]. rewrite Ho.
  split; [reflexivity|]. split; [discriminate|]. vm_compute. reflexivity.
Qed.

(** C9.  With a non-positive budget [execute] goes straight to line 123:
    it raises DatabaseOperationFailed with its [sql] and [params], makes
    no attempt, and has no effect: nothing is taken from the pool, no
    statement is issued, there is no sleep. *)
Theorem execute_nonpositive_raises_OperationFailed
    (cfg : Config) (drv : Driver) (sql : string) (params : PyVal)
    (fetch want_lastrowid : bool) (retries : Z) (w : World) :
  retries <= 0 ->
  execute cfg drv sql params fetch want_lastrowid retries w
  = mkRun (Raise (DatabaseOperationFailed sql params)) w []
  /\ attempts_of cfg drv sql params fetch want_lastrowid retries w = [].
Proof.
  intro H. unfold execute, attempts_of.
  replace (Z.to_nat retries) with O by lia. split; reflexivity.
Qed.

Lemma execute_nonpositive_raises_OperationFailed_witness :
  execute sample_cfg healthy "SELECT 1" VNone true false (-1) sample_world
  = mkRun (Raise (DatabaseOperationFailed "SELECT 1" VNone)) sample_world [].
Proof.
  apply (execute_nonpositive_raises_OperationFailed
           sample_cfg healthy "SELECT 1" VNone true false (-1) sample_world).
  lia.
Defined.
(** ** batch_insert *)

Section Chunks.

Variable data : list PyVal.
Variable step : nat.
Hypothesis step_pos : (0 < step)%nat.

Let total : nat := List.length data.
Let chunk (i : nat) : list PyVal := firstn step (skipn i data).


(** The slices taken at the indices of the range, put end to end, are
    the records from the first index on: the range is long enough. *)
Lemma chunks_concat (fuel : nat) :
  forall i, (total - i <= fuel)%nat ->
    List.concat (map chunk (range_loop fuel i total step)) = skipn i data.
Proof.
  induction fuel as [|fuel IH]; intros i Hfuel.
  - simpl. symmetry. apply skipn_all2. unfold total in Hfuel. lia.
  - simpl. destruct (i <? total)%nat eqn:Hi.
    + apply Nat.ltb_lt in Hi. simpl. rewrite IH by lia.
      unfold chunk. rewrite Nat.add_comm, <- skipn_skipn.
      apply firstn_skipn.
    + apply Nat.ltb_ge in Hi. simpl. symmetry. apply skipn_all2.
      unfold total in Hi. exact Hi.
Qed.


End Chunks.

Section BatchInsertFacts.

Variable cfg : Config.
Variable drv : Driver.


End BatchInsertFacts.




(** * Further properties *)

(** ** create_conn and __init__ *)

Section CreateConnMore.

Variable cfg : Config.
Variable drv : Driver.

Let base : float := retry_backoff_base cfg.

(** A connection the factory returns is the one just opened; the queue
    is untouched. *)
Lemma create_conn_loop_returns (n : nat) (d : float) (w : World) (c : Conn) :
  outcome (create_conn_loop cfg drv n d w) = Return (Some c) ->
  c = opened w
  /\ opened (final (create_conn_loop cfg drv n d w)) = S (opened w)
  /\ pool (final (create_conn_loop cfg drv n d w)) = pool w.
Proof.
  revert c.
  apply (create_conn_loop_cases cfg drv
           (fun _ _ w r => forall c, outcome r = Return (Some c) ->
                           c = opened w /\ opened (final r) = S (opened w)
                           /\ pool (final r) = pool w));
    cbn [outcome final]; intros; try discriminate.
  - injection H0 as <-. auto.
  - apply H3. assumption.
Qed.

Lemma create_conn_loop_recovers (n : nat) (d : float) (w : World) (j : nat) :
  (j < n)%nat ->
  (forall i, (i < j)%nat ->
     exists e, connect drv (connects w + i) = Some e /\ is_MySQLError e = true) ->
  sleeps_accepted (backoff_delays base j d) ->
  connect drv (connects w + j) = None ->
  let r := create_conn_loop cfg drv n d w in
  outcome r = Return (Some (opened w))
  /\ sleeps_at InCreateConn (events r) = backoff_delays base j d
  /\ List.length (connect_calls (events r)) = S j.
Proof.
  cbv zeta. revert j.
  apply (create_conn_loop_cases cfg drv
           (fun n d w r =>
              forall j, (j < n)%nat ->
              (forall i, (i < j)%nat ->
                 exists e, connect drv (connects w + i) = Some e
                           /\ is_MySQLError e = true) ->
              sleeps_accepted (backoff_delays base j d) ->
              connect drv (connects w + j) = None ->
              outcome r = Return (Some (opened w))
              /\ sleeps_at InCreateConn (events r) = backoff_delays base j d
              /\ List.length (connect_calls (events r)) = S j)).
  - intros; lia.
  - intros n0 d0 w0 Hc j Hj Hall _ Hj'. destruct j as [|j].
    + simpl. auto.
    + destruct (Hall O) as (e & He & _); [lia|].
      rewrite Nat.add_0_r in He. congruence.
  - intros n0 d0 w0 e Hc Hne j Hj Hall _ Hj'. destruct j as [|j].
    + rewrite Nat.add_0_r in Hj'. congruence.
    + destruct (Hall O) as (e' & He' & Hm); [lia|].
      rewrite Nat.add_0_r in He'. congruence.
  - intros n0 d0 w0 e e' Hc He Hs j Hj Hall Hacc Hj'. destruct j as [|j].
    + rewrite Nat.add_0_r in Hj'. congruence.
    + inversion Hacc as [|x l Hx _]; subst. congruence.
  - intros d0 w0 e Hc He Hs j Hj Hall _ Hj'. assert (j = O) by lia. subst j.
    rewrite Nat.add_0_r in Hj'. congruence.
  - intros n0 d0 w0 e r Hc He Hs _ IH j Hj Hall Hacc Hj'. destruct j as [|j].
    + rewrite Nat.add_0_r in Hj'. congruence.
    + inversion Hacc as [|x l _ Hrest]; subst.
      destruct (IH j) as (Ho & Hsl & Hn); [lia| |exact Hrest| |].
      * intros i Hi. simpl. rewrite <- Nat.add_succ_r. apply Hall. lia.
      * simpl. rewrite <- Nat.add_succ_r. exact Hj'.
      * cbn [outcome events]. rewrite sleeps_at_app, connect_calls_app.
        simpl. rewrite Hsl, Hn. simpl in Ho. auto.
Qed.

Lemma create_conn_returns (retries : Z) (w : World) (c : Conn) :
  outcome (create_conn cfg drv retries w) = Return (Some c) ->
  c = opened w
  /\ opened (final (create_conn cfg drv retries w)) = S (opened w)
  /\ pool (final (create_conn cfg drv retries w)) = pool w.
Proof. apply create_conn_loop_returns. Qed.

Lemma create_conn_pool (retries : Z) (w : World) :
  pool (final (create_conn cfg drv retries w)) = pool w.
Proof. apply create_conn_loop_pool. Qed.

Lemma create_conn_not_blocked (retries : Z) (w : World) :
  outcome (create_conn cfg drv retries w) <> Blocked.
Proof.
  unfold create_conn.
  apply (create_conn_loop_cases cfg drv (fun _ _ _ r => outcome r <> Blocked));
    cbn [outcome]; intros; try discriminate; assumption.
Qed.

End CreateConnMore.

(** X1.  A transient outage: when the first [j] connection attempts fail
    with a pymysql error, [time.sleep] accepts the delays that follow
    them, and the next attempt succeeds within the budget, [create_conn]
    returns the connection just opened after [j + 1] attempts and [j]
    sleeps, the first for [base] and each next one for the previous delay
    multiplied by [base] (a float product), and leaves the queue as it
    was. *)
Theorem create_conn_returns_after_transient_failures
    (cfg : Config) (drv : Driver) (retries : Z) (w : World) (j : nat) :
  Z.of_nat j < retries ->
  (forall i, (i < j)%nat ->
     exists e, connect drv (connects w + i) = Some e /\ is_MySQLError e = true) ->
  sleeps_accepted (backoff_delays (retry_backoff_base cfg) j (retry_backoff_base cfg)) ->
  connect drv (connects w + j) = None ->
  let r := create_conn cfg drv retries w in
  let b := retry_backoff_base cfg in
  outcome r = Return (Some (opened w))
  /\ List.length (connect_calls (events r)) = S j
  /\ List.length (sleeps_at InCreateConn (events r)) = j
  /\ ((0 < j)%nat -> nth 0 (sleeps_at InCreateConn (events r)) 0%float = b)
  /\ (forall i, (S i < j)%nat ->
        nth (S i) (sleeps_at InCreateConn (events r)) 0%float
        = (nth i (sleeps_at InCreateConn (events r)) 0 * b)%float)
  /\ pool (final r) = pool w.
Proof.
  intros Hj Hall Hacc Hok r b. subst r. unfold create_conn.
  destruct (create_conn_loop_recovers cfg drv (Z.to_nat retries) b w j)
    as (Ho & Hs & Hn); [lia|exact Hall|exact Hacc|exact Hok|].
  split; [exact Ho|]. split; [exact Hn|].
  fold b. rewrite Hs, backoff_delays_length. split; [reflexivity|].
  destruct (backoff_delays_step b j b 0%float) as [H0 Hstep].
  split; [exact H0|]. split; [exact Hstep|].
  apply create_conn_loop_pool.
Qed.

Lemma create_conn_returns_after_transient_failures_witness :
  outcome (create_conn sample_cfg recovering 3 empty_world) = Return (Some 0%nat)
  /\ List.length (sleeps_at InCreateConn
                    (events (create_conn sample_cfg recovering 3 empty_world))) = 2%nat.
Proof.
  destruct (create_conn_returns_after_transient_failures
              sample_cfg recovering 3 empty_world 2) as (Ho & _ & Hs & _).
  - lia.
  - intros i Hi. exists (OperationalError "2003").
    destruct i as [|[|i]]; [split; reflexivity|split; reflexivity|lia].
  - apply acceptedb_sound. vm_compute. reflexivity.
  - reflexivity.
  - split; [exact Ho|exact Hs].
Defined.

Section InitFacts.

Variable cfg : Config.
Variable drv : Driver.

Lemma fill_pool_step (n : nat) (w : World) :
  fill_pool cfg drv (S n) w
  = let r := create_conn cfg drv 3 w in
    match outcome r with
    | Return (Some c) =>
        if queue_full (pool_size cfg) (pool (final r))
        then mkRun Blocked (final r) (events r)
        else
          let r' := fill_pool cfg drv n
                      (set_pool (pool (final r) ++ [c]) (final r)) in
          mkRun (outcome r') (final r') (events r ++ EvPut c :: events r')
    | Return None =>
        mkRun (Raise (OtherException "None in pool")) (final r) (events r)
    | Raise e => mkRun (Raise e) (final r) (events r)
    | Blocked => mkRun Blocked (final r) (events r)
    end.
Proof.
  cbn [fill_pool]. unfold bind at 1. cbv zeta.
  destruct (outcome (create_conn cfg drv 3 w)) as [[c|]|e|]; try reflexivity.
  - unfold bind, pool_put.
    destruct (queue_full (pool_size cfg) (pool (final (create_conn cfg drv 3 w))));
      cbn [outcome final events].
    + rewrite app_nil_r. reflexivity.
    + destruct (fill_pool cfg drv n
                  (set_pool (pool (final (create_conn cfg drv 3 w)) ++ [c])
                            (final (create_conn cfg drv 3 w)))) as [o f evs].
      destruct o; cbn [outcome final events app]; reflexivity.
  - unfold raise. cbn [outcome final events]. rewrite app_nil_r. reflexivity.
Qed.

(** When the filling loop returns, the queue has grown by the [n]
    connections opened meanwhile, in the order they were opened. *)
Lemma fill_pool_returns (n : nat) :
  forall w,
    outcome (fill_pool cfg drv n w) = Return tt ->
    pool (final (fill_pool cfg drv n w)) = pool w ++ seq (opened w) n
    /\ opened (final (fill_pool cfg drv n w)) = (opened w + n)%nat.
Proof.
  induction n as [|n IH]; intros w Hret.
  - simpl. rewrite app_nil_r. auto.
  - rewrite fill_pool_step in *. cbv zeta in *.
    pose proof (create_conn_returns cfg drv 3 w) as Hc.
    destruct (outcome (create_conn cfg drv 3 w)) as [[c|]|e|]; try discriminate.
    destruct (Hc c eq_refl) as (-> & Hop & Hpool).
    destruct (queue_full (pool_size cfg) (pool (final (create_conn cfg drv 3 w))));
      [discriminate|].
    cbn [outcome final] in *.
    destruct (IH _ Hret) as [Hp Ho].
    rewrite Hp, Ho. unfold set_pool. cbn [pool opened]. rewrite Hpool, Hop.
    rewrite <- app_assoc. simpl. split; [reflexivity|lia].
Qed.

(** The filling loop waits on a full queue only if the queue cannot take
    [n] more connections. *)
Lemma fill_pool_not_blocked (n : nat) :
  forall w,
    Z.of_nat (List.length (pool w)) + Z.of_nat n <= pool_size cfg ->
    outcome (fill_pool cfg drv n w) <> Blocked.
Proof.
  induction n as [|n IH]; intros w Hcap; [discriminate|].
  rewrite fill_pool_step. cbv zeta.
  pose proof (create_conn_pool cfg drv 3 w) as Hpool.
  pose proof (create_conn_not_blocked cfg drv 3 w) as Hb.
  destruct (outcome (create_conn cfg drv 3 w)) as [[c|]|e|] eqn:Ho;
    try discriminate.
  - unfold queue_full. rewrite Hpool.
    destruct (pool_size cfg <=? Z.of_nat (List.length (pool w))) eqn:Hfull.
    + apply Z.leb_le in Hfull. lia.
    + rewrite andb_false_r. cbn [outcome]. apply IH.
      unfold set_pool. cbn [pool]. rewrite length_app. simpl. lia.
  - exfalso. apply Hb. reflexivity.
Qed.

End InitFacts.

(** X2.  When the constructor returns, the queue holds exactly
    [pool_size] connections (none for a non-positive [pool_size]): the
    ones it opened, each once, in the order they were opened. *)
Theorem init_queues_pool_size_connections (cfg : Config) (drv : Driver) :
  outcome (init cfg drv) = Return tt ->
  pool (final (init cfg drv)) = seq 0 (Z.to_nat (pool_size cfg))
  /\ Z.of_nat (List.length (pool (final (init cfg drv)))) = Z.max 0 (pool_size cfg)
  /\ NoDup (pool (final (init cfg drv))).
Proof.
  intro Hret. unfold init in *.
  destruct (fill_pool_returns cfg drv _ _ Hret) as [Hp _].
  cbn [pool opened empty_world app] in Hp. rewrite Hp.
  split; [reflexivity|]. split.
  - rewrite length_seq. lia.
  - apply seq_NoDup.
Qed.

Lemma init_queues_pool_size_connections_witness :
  pool (final (init sample_cfg healthy)) = [0; 1]%nat.
Proof.
  destruct (init_queues_pool_size_connections sample_cfg healthy) as (Hp & _ & _).
  - vm_compute. reflexivity.
  - exact Hp.
Defined.

(** X3.  The constructor never waits on its own queue: the queue is
    created with room for the [pool_size] connections it is filled
    with. *)
Theorem init_never_blocks (cfg : Config) (drv : Driver) :
  outcome (init cfg drv) <> Blocked.
Proof.
  unfold init. destruct (Z.to_nat (pool_size cfg)) as [|n] eqn:Hn; [discriminate|].
  apply fill_pool_not_blocked. simpl pool. simpl List.length. lia.
Qed.

(** X4.  When the server cannot be reached (the first three connection
    attempts fail with a pymysql error), [time.sleep] accepts the three
    delays and [pool_size] is positive, the constructor raises
    DatabaseConnectionError with the configured host and port after
    exactly three attempts and three sleeps, and nothing has been
    queued. *)
Theorem init_raises_when_unreachable (cfg : Config) (drv : Driver) :
  0 < pool_size cfg ->
  (forall i, (i < 3)%nat ->
     exists e, connect drv i = Some e /\ is_MySQLError e = true) ->
  sleeps_accepted (backoff_delays (retry_backoff_base cfg) 3 (retry_backoff_base cfg)) ->
  outcome (init cfg drv) = Raise (DatabaseConnectionError (host cfg) (port cfg))
  /\ List.length (connect_calls (events (init cfg drv))) = 3%nat
  /\ sleeps_at InCreateConn (events (init cfg drv))
     = backoff_delays (retry_backoff_base cfg) 3 (retry_backoff_base cfg)
  /\ pool (final (init cfg drv)) = [].
Proof.
  intros Hpos Hall Hacc. unfold init.
  destruct (Z.to_nat (pool_size cfg)) as [|n] eqn:Hn; [lia|].
  rewrite fill_pool_step. cbv zeta.
  destruct (create_conn_loop_all_fail cfg drv 3 (retry_backoff_base cfg) empty_world)
    as (Ho & Hc & Hs & _); [lia|exact Hall|exact Hacc|].
  pose proof (create_conn_pool cfg drv 3 empty_world) as Hpool.
  change (create_conn_loop cfg drv 3 (retry_backoff_base cfg) empty_world)
    with (create_conn cfg drv 3 empty_world) in Ho, Hc, Hs.
  rewrite Ho. cbn [outcome final events]. auto.
Qed.

Lemma init_raises_when_unreachable_witness :
  outcome (init sample_cfg unreachable)
  = Raise (DatabaseConnectionError "db.local" 3306).
Proof.
  destruct (init_raises_when_unreachable sample_cfg unreachable) as (Ho & _ & _).
  - simpl. lia.
  - intros i _. exists (OperationalError "2003"). split; reflexivity.
  - apply acceptedb_sound. vm_compute. reflexivity.
  - exact Ho.
Defined.

(** ** get_conn, release_conn and close_all_connections *)

Lemma get_calls_app (l1 l2 : list Event) :
  get_calls (l1 ++ l2) = get_calls l1 ++ get_calls l2.
Proof.
  induction l1 as [|ev l1 IH]; simpl; [reflexivity|].
  destruct ev; simpl; rewrite ?IH; reflexivity.
Qed.

Lemma close_calls_app (l1 l2 : list Event) :
  close_calls (l1 ++ l2) = close_calls l1 ++ close_calls l2.
Proof.
  induction l1 as [|ev l1 IH]; simpl; [reflexivity|].
  destruct ev; simpl; rewrite ?IH; reflexivity.
Qed.

Section GetConnMore.

Variable cfg : Config.
Variable drv : Driver.

(** The factory takes nothing out of the queue and closes nothing; the
    connection it returns is the last thing it opened. *)
Lemma create_conn_events (retries : Z) (w : World) :
  let r := create_conn cfg drv retries w in
  get_calls (events r) = []
  /\ close_calls (events r) = []
  /\ (forall c, outcome r = Return (Some c) ->
        exists pre, events r = pre ++ [EvConnect (inr c)]).
Proof.
  cbv zeta. unfold create_conn.
  apply (create_conn_loop_cases cfg drv
           (fun _ _ _ r =>
              get_calls (events r) = []
              /\ close_calls (events r) = []
              /\ (forall c, outcome r = Return (Some c) ->
                    exists pre, events r = pre ++ [EvConnect (inr c)])));
    cbn [outcome events]; intros.
  - repeat split; auto. discriminate.
  - repeat split; auto. intros c Hc. injection Hc as <-. exists []. reflexivity.
  - repeat split; auto. discriminate.
  - repeat split; auto. discriminate.
  - repeat split; auto. discriminate.
  - destruct H3 as (Hg & Hcl & Hlast).
    rewrite get_calls_app, close_calls_app, Hg, Hcl. repeat split; auto.
    intros c Hc. destruct (Hlast c Hc) as [pre Hpre]. rewrite Hpre.
    eexists. rewrite app_assoc. reflexivity.
Qed.

End GetConnMore.

Lemma get_conn_blocked_iff (cfg : Config) (drv : Driver) (w : World) :
  outcome (get_conn cfg drv w) = Blocked <-> pool w = [].
Proof.
  apply (get_conn_cases cfg drv (fun w r => outcome r = Blocked <-> pool w = [])).
  - intros w0 Hp. cbn [outcome]. tauto.
  - intros w0 c q Hp _. cbn [outcome]. rewrite Hp. split; discriminate.
  - intros w0 c e r Hp _ ->. cbn [outcome]. rewrite Hp.
    split; [|discriminate]. intro H. exfalso.
    exact (create_conn_not_blocked cfg drv 3 _ H).
  - intros w0 c c2 q2 e r Hp _ _ IH. cbn [outcome]. rewrite Hp.
    split; [|discriminate]. intro H. apply IH in H. discriminate H.
Qed.

(** X5.  [get_conn] waits forever exactly when the queue is empty at the
    call: once it has taken a connection out it never waits again, an
    emptied queue sends it to the factory instead. *)
Theorem get_conn_blocks_iff_pool_empty (cfg : Config) (drv : Driver) (w : World) :
  outcome (get_conn cfg drv w) = Blocked <-> pool w = [].
Proof.
  split; intro H.
  - now apply (get_conn_blocked_iff cfg drv w).
  - now apply (get_conn_blocked_iff cfg drv w).
Qed.

(** X6.  A connection [get_conn] returns was either taken from the queue
    and probed successfully as the last step of the call, or it is the
    connection the factory has just opened after the queue ran empty; in
    the second case it has not been probed, and the queue is empty. *)
Theorem get_conn_returns_probed_or_fresh
    (cfg : Config) (drv : Driver) (w : World) (c : Conn) :
  outcome (get_conn cfg drv w) = Return (Some c) ->
  let r := get_conn cfg drv w in
  (In c (pool w)
   /\ exists pre, events r = pre ++ [EvGet c; EvPing c None])
  \/ (c = opened w
      /\ pool (final r) = []
      /\ exists pre, events r = pre ++ [EvConnect (inr c)]).
Proof.
  cbv zeta. revert c.
  apply (get_conn_cases cfg drv
           (fun w r => forall c, outcome r = Return (Some c) ->
              (In c (pool w)
               /\ exists pre, events r = pre ++ [EvGet c; EvPing c None])
              \/ (c = opened w
                  /\ pool (final r) = []
                  /\ exists pre, events r = pre ++ [EvConnect (inr c)]))).
  - intros; discriminate.
  - intros w0 c q Hp _ c0 H. injection H as <-. left. rewrite Hp.
    split; [left; reflexivity|]. exists []. reflexivity.
  - intros w0 c e r Hp _ -> c0 H. cbn [outcome final events] in *. right.
    destruct (create_conn_returns cfg drv 3 _ c0 H) as (Hc & _ & Hpool).
    destruct (create_conn_events cfg drv 3 (after_ping [] w0)) as (_ & _ & Hlast).
    destruct (Hlast c0 H) as [pre Hpre].
    split; [exact Hc|]. split; [exact Hpool|].
    rewrite Hpre. eexists. rewrite app_assoc. reflexivity.
  - intros w0 c c2 q2 e r Hp _ _ IH c0 H. cbn [outcome final events] in *.
    destruct (IH c0 H) as [[Hin [pre Hpre]]|(Hc & Hpool & [pre Hpre])].
    + left. rewrite Hp. split; [right; exact Hin|].
      rewrite Hpre. eexists. rewrite app_assoc. reflexivity.
    + right. split; [exact Hc|]. split; [exact Hpool|].
      rewrite Hpre. eexists. rewrite app_assoc. reflexivity.
Qed.

Lemma get_conn_returns_probed_or_fresh_witness :
  (In 0%nat (pool sample_world)
   /\ exists pre, events (get_conn sample_cfg healthy sample_world)
                  = pre ++ [EvGet 0%nat; EvPing 0%nat None])
  \/ (0%nat = opened sample_world
      /\ pool (final (get_conn sample_cfg healthy sample_world)) = []
      /\ exists pre, events (get_conn sample_cfg healthy sample_world)
                     = pre ++ [EvConnect (inr 0%nat)]).
Proof.
  apply (get_conn_returns_probed_or_fresh sample_cfg healthy sample_world 0%nat).
  vm_compute. reflexivity.
Defined.

(** X7.  [get_conn] loses no connection: the connections it took out of
    the queue are a prefix of the queue, the rest is still queued, and
    every one it took out has been closed, except the one it returns
    when that one comes from the queue. *)
Theorem get_conn_closes_what_it_discards (cfg : Config) (drv : Driver) (w : World) :
  let r := get_conn cfg drv w in
  get_calls (events r) ++ pool (final r) = pool w
  /\ (close_calls (events r) = get_calls (events r)
      \/ exists c, outcome r = Return (Some c)
                   /\ get_calls (events r) = close_calls (events r) ++ [c]).
Proof.
  cbv zeta.
  apply (get_conn_cases cfg drv
           (fun w r =>
              get_calls (events r) ++ pool (final r) = pool w
              /\ (close_calls (events r) = get_calls (events r)
                  \/ exists c, outcome r = Return (Some c)
                               /\ get_calls (events r)
                                  = close_calls (events r) ++ [c]))).
  - intros w0 Hp. cbn [outcome final events get_calls close_calls app].
    split; [reflexivity|left; reflexivity].
  - intros w0 c q Hp _. cbn [outcome final events get_calls close_calls app].
    unfold after_ping. cbn [pool]. split; [symmetry; exact Hp|].
    right. exists c. split; reflexivity.
  - intros w0 c e r Hp _ ->. cbn [outcome final events].
    destruct (create_conn_events cfg drv 3 (after_ping [] w0)) as (Hg & Hc & _).
    rewrite get_calls_app, close_calls_app, Hg, Hc, create_conn_pool.
    unfold after_ping. cbn [pool get_calls close_calls app].
    split; [symmetry; exact Hp|left; reflexivity].
  - intros w0 c c2 q2 e r Hp _ _ [IH1 IH2]. cbn [outcome final events].
    rewrite get_calls_app, close_calls_app.
    cbn [get_calls close_calls app]. split.
    + rewrite IH1. unfold after_ping. cbn [pool]. symmetry. exact Hp.
    + destruct IH2 as [IH2|(c0 & Ho & IH2)].
      * left. rewrite IH2. reflexivity.
      * right. exists c0. split; [exact Ho|]. rewrite IH2. reflexivity.
Qed.

(** X8.  Acquire, then release: when the connection at the head of the
    queue answers its probe and the queue is within its capacity,
    [get_conn] returns that connection and [release_conn] puts it back
    at the tail, so the queue holds the same connections as before,
    rotated by one. *)
Theorem get_conn_then_release_conn_rotates
    (cfg : Config) (drv : Driver) (w : World) (c : Conn) (q : list Conn) :
  pool w = c :: q ->
  ping drv (pings w) = None ->
  pool_size cfg <= 0 \/ Z.of_nat (List.length (pool w)) <= pool_size cfg ->
  outcome (get_conn cfg drv w) = Return (Some c)
  /\ pool (final (release_conn cfg c (final (get_conn cfg drv w)))) = q ++ [c]
  /\ List.length (pool (final (release_conn cfg c (final (get_conn cfg drv w)))))
     = List.length (pool w)
  /\ close_calls (events (get_conn cfg drv w)
                  ++ events (release_conn cfg c (final (get_conn cfg drv w)))) = [].
Proof.
  intros Hp Hping Hcap.
  assert (Hg : get_conn cfg drv w
               = mkRun (Return (Some c)) (after_ping q w) [EvGet c; EvPing c None]).
  { unfold get_conn. rewrite Hp.
    apply (get_conn_loop_alive cfg drv c q w c q Hp Hping). }
  rewrite Hg. cbn [outcome final events].
  assert (Hfull : queue_full (pool_size cfg) (pool (after_ping q w)) = false).
  { unfold after_ping. cbn [pool].
    unfold queue_full. rewrite Hp in Hcap. simpl List.length in Hcap.
    destruct Hcap as [Hcap|Hcap].
    - destruct (0 <? pool_size cfg) eqn:H0; [apply Z.ltb_lt in H0; lia|reflexivity].
    - destruct (pool_size cfg <=? Z.of_nat (List.length q)) eqn:H1;
        [apply Z.leb_le in H1; lia|apply andb_false_r]. }
  rewrite (release_conn_room cfg c (after_ping q w) Hfull).
  cbn [outcome final events app]. unfold set_pool, after_ping.
  cbn [pool]. rewrite Hp, length_app. simpl.
  repeat split; auto. lia.
Qed.

Lemma get_conn_then_release_conn_rotates_witness :
  pool (final (release_conn sample_cfg 0%nat
                 (final (get_conn sample_cfg healthy sample_world))))
  = [1; 0]%nat.
Proof.
  destruct (get_conn_then_release_conn_rotates sample_cfg healthy sample_world
              0%nat [1%nat]) as (_ & Hp & _).
  - reflexivity.
  - reflexivity.
  - right. simpl. lia.
  - exact Hp.
Defined.

Lemma close_all_loop_drains (q : list Conn) :
  forall w, pool w = q ->
    close_all_loop q w
    = mkRun (Return tt) (set_pool [] w)
            (flat_map (fun c => [EvGet c; EvClose c]) q).
Proof.
  induction q as [|c q IH]; intros w Hp.
  - destruct w as [p o cn pg st]. cbn [pool] in Hp. subst p. reflexivity.
  - destruct w as [p o cn pg st]. cbn [pool] in Hp. subst p.
    cbn [close_all_loop].
    unfold bind, pool_empty, pool_get, conn_close, emit, ret, set_pool.
    cbn [outcome final events app pool opened connects pings statements].
    rewrite (IH (mkWorld q o cn pg st) eq_refl).
    reflexivity.
Qed.

(** X9.  [close_all_connections] always returns; it empties the queue,
    closes exactly the connections that were queued, each once and in
    queue order, opens nothing, and on an empty queue does nothing at
    all. *)
Theorem close_all_connections_drains (w : World) :
  let r := close_all_connections w in
  outcome r = Return tt
  /\ pool (final r) = []
  /\ close_calls (events r) = pool w
  /\ get_calls (events r) = pool w
  /\ connect_calls (events r) = []
  /\ (pool w = [] -> r = mkRun (Return tt) w []).
Proof.
  cbv zeta. unfold close_all_connections.
  rewrite (close_all_loop_drains (pool w) w eq_refl).
  cbn [outcome final events]. unfold set_pool. cbn [pool].
  assert (H : forall q,
             close_calls (flat_map (fun c => [EvGet c; EvClose c]) q) = q
             /\ get_calls (flat_map (fun c => [EvGet c; EvClose c]) q) = q
             /\ connect_calls (flat_map (fun c => [EvGet c; EvClose c]) q) = []).
  { induction q as [|c q (IH1 & IH2 & IH3)]; simpl; [auto|].
    rewrite IH1, IH2, IH3. auto. }
  destruct (H (pool w)) as (H1 & H2 & H3).
  repeat split; auto.
  intro Hp. rewrite Hp. destruct w as [p o cn pg st]. cbn [pool] in Hp. subst p.
  reflexivity.
Qed.

Lemma close_all_connections_drains_witness :
  close_calls (events (close_all_connections sample_world)) = [0; 1]%nat
  /\ close_all_connections empty_world = mkRun (Return tt) empty_world [].
Proof.
  destruct (close_all_connections_drains sample_world) as (_ & _ & Hc & _).
  destruct (close_all_connections_drains empty_world) as (_ & _ & _ & _ & _ & He).
  split; [exact Hc|]. apply He. reflexivity.
Defined.

(** ** execute: the pool and the schedule over whole runs *)

Lemma last_cons_default {A : Type} (a : A) (l : list A) (d : A) :
  last (a :: l) d = last l a.
Proof.
  revert a d. induction l as [|b l IH]; intros a d; [reflexivity|].
  change (last (a :: b :: l) d) with (last (b :: l) d).
  rewrite (IH b d), (IH b a). reflexivity.
Qed.

Section ExecuteMore.

Variable cfg : Config.
Variable drv : Driver.
Variable sql : string.
Variable params : PyVal.
Variable fetch : bool.
Variable want_lastrowid : bool.

Let base : float := retry_backoff_base cfg.
Let attempt' := attempt cfg drv sql params fetch want_lastrowid.
Let loop := execute_loop cfg drv sql params fetch want_lastrowid.

(** Past the first connection it takes out, [get_conn] leaves fewer
    connections queued than it found. *)
Lemma get_conn_shrinks (w : World) :
  outcome (get_conn cfg drv w) <> Blocked ->
  (S (List.length (pool (final (get_conn cfg drv w)))) <= List.length (pool w))%nat.
Proof.
  apply (get_conn_cases cfg drv
           (fun w r => outcome r <> Blocked ->
                       (S (List.length (pool (final r))) <= List.length (pool w))%nat)).
  - intros w0 _ H. exfalso. apply H. reflexivity.
  - intros w0 c q Hp _ _. cbn [final]. unfold after_ping. cbn [pool].
    rewrite Hp. simpl. lia.
  - intros w0 c e r Hp _ -> _. cbn [final]. rewrite create_conn_pool.
    unfold after_ping. cbn [pool]. rewrite Hp. simpl. lia.
  - intros w0 c c2 q2 e r Hp _ _ IH H. cbn [outcome final] in *.
    specialize (IH H). unfold after_ping in IH. cbn [pool] in IH.
    rewrite Hp. simpl in *. lia.
Qed.

Lemma get_conn_blocked_run (w : World) :
  pool w = [] -> get_conn cfg drv w = mkRun Blocked w [].
Proof.
  intro H. unfold get_conn. rewrite H. reflexivity.
Qed.

(** Issuing the statement leaves the queue alone. *)
Lemma issue_pool (c : Conn) (w : World) :
  pool (final (issue drv sql params fetch want_lastrowid c w)) = pool w.
Proof.
  unfold issue, bind, driver_execute, driver_fetchall, driver_commit, ret.
  destruct (cursor_execute drv (statements w)) as [e|];
    cbn [outcome final events pool]; [reflexivity|].
  destruct fetch.
  - destruct (fetchall drv (statements w)) as [e|rows];
      cbn [outcome final events pool]; [reflexivity|].
    destruct (commit drv (statements w)); reflexivity.
  - destruct want_lastrowid; cbn [outcome final events pool];
      destruct (commit drv (statements w)); reflexivity.
Qed.

Lemma handler_pool (e : Exn) (w : World) :
  final (handler sql params e w) = w.
Proof.
  unfold handler, log, emit.
  destruct (is_OperationalError e); [|destruct (is_MySQLError e)]; reflexivity.
Qed.

Lemma finally_block_final (conn : option Conn) (d : float) (w : World) :
  final (finally_block cfg conn d w)
  = match conn with
    | Some c => final (release_conn cfg c w)
    | None => w
    end.
Proof.
  destruct (finally_block_shape cfg conn d w) as (_ & _ & H).
  destruct conn as [c|]; apply H.
Qed.

(** After the [finally] clause the queue holds the released connection,
    or is full; with no connection to release it is as it was. *)
Lemma finally_block_pool (conn : option Conn) (d : float) (w : World) :
  let f := final (finally_block cfg conn d w) in
  (List.length (pool f) <= List.length (pool w) + 1)%nat
  /\ (forall c, conn = Some c -> pool f <> [])
  /\ (conn = None -> pool f = pool w).
Proof.
  cbv zeta. rewrite finally_block_final. destruct conn as [c|].
  - destruct (queue_full (pool_size cfg) (pool w)) eqn:Hfull.
    + rewrite (release_conn_full cfg c w Hfull). cbn [final].
      split; [lia|]. split; [|discriminate]. intros _ _ Hp.
      unfold queue_full in Hfull. rewrite Hp in Hfull. simpl in Hfull.
      apply andb_true_iff in Hfull as [H0 H1].
      apply Z.ltb_lt in H0. apply Z.leb_le in H1. lia.
    + rewrite (release_conn_room cfg c w Hfull). cbn [final].
      unfold set_pool. cbn [pool]. rewrite length_app. simpl.
      split; [lia|]. split; [|discriminate]. intros _ _ Hp.
      destruct (pool w); discriminate.
  - split; [lia|]. split; [discriminate|auto].
Qed.

(** One turn of the loop and the queue. *)
Lemma attempt_pool (d : float) (w : World) :
  let a := attempt' d w in
  (att_body a = Blocked <-> pool w = [])
  /\ (List.length (pool (att_final a)) <= List.length (pool w))%nat
  /\ (forall c, att_conn a = Some c -> pool (att_final a) <> []).
Proof.
  cbv zeta. unfold attempt', attempt, try_block.
  pose proof (get_conn_blocked_iff cfg drv w) as Hblk.
  pose proof (get_conn_shrinks w) as Hshr.
  destruct (outcome (get_conn cfg drv w)) as [[c|]|e|] eqn:Ho.
  - specialize (Hshr ltac:(discriminate)).
    destruct (issue_quiet cfg drv sql params fetch want_lastrowid c
                (final (get_conn cfg drv w))) as (_ & _ & _ & Hnb).
    pose proof (issue_pool c (final (get_conn cfg drv w))) as Hip.
    cbn [outcome final events].
    destruct (outcome (issue drv sql params fetch want_lastrowid c
                         (final (get_conn cfg drv w)))) as [v|e|];
      [| |contradiction].
    + destruct (finally_block_pool (Some c) d
                  (final (issue drv sql params fetch want_lastrowid c
                            (final (get_conn cfg drv w))))) as (Hlen & Hne & _).
      cbn [att_body att_final att_conn]. rewrite Hip in Hlen.
      split; [split; [discriminate|]|].
      * intro Hp. apply Hblk in Hp. discriminate.
      * split; [lia|]. intros c0 _. now apply (Hne c).
    + rewrite handler_pool.
      destruct (finally_block_pool (Some c) d
                  (final (issue drv sql params fetch want_lastrowid c
                            (final (get_conn cfg drv w))))) as (Hlen & Hne & _).
      cbn [att_body att_final att_conn]. rewrite Hip in Hlen.
      split; [split; [discriminate|]|].
      * intro Hp. apply Hblk in Hp. discriminate.
      * split; [lia|]. intros c0 _. now apply (Hne c).
  - specialize (Hshr ltac:(discriminate)). cbn [outcome final events].
    rewrite handler_pool.
    destruct (finally_block_pool None d (final (get_conn cfg drv w)))
      as (_ & _ & Hsame).
    cbn [att_body att_final att_conn]. rewrite (Hsame eq_refl).
    split; [split; [discriminate|]|].
    + intro Hp. apply Hblk in Hp. discriminate.
    + split; [lia|discriminate].
  - specialize (Hshr ltac:(discriminate)). cbn [outcome final events].
    rewrite handler_pool.
    destruct (finally_block_pool None d (final (get_conn cfg drv w)))
      as (_ & _ & Hsame).
    cbn [att_body att_final att_conn]. rewrite (Hsame eq_refl).
    split; [split; [discriminate|]|].
    + intro Hp. apply Hblk in Hp. discriminate.
    + split; [lia|discriminate].
  - cbn [outcome final events att_body att_final att_conn].
    assert (Hp : pool w = []) by (apply Hblk; reflexivity).
    rewrite (get_conn_blocked_run w Hp). cbn [final].
    split; [tauto|]. split; [lia|discriminate].
Qed.

(** A turn whose [finally] clause raised was not blocked. *)
Lemma attempt_raised_not_blocked (d : float) (w : World) (e : Exn) :
  att_raised (attempt' d w) = Some e -> att_body (attempt' d w) <> Blocked.
Proof.
  intros Hra Hb.
  destruct (attempt_facts cfg drv sql params fetch want_lastrowid d w)
    as (_ & Hblk & _).
  fold attempt' in Hblk. destruct (Hblk Hb) as (_ & _ & _ & _ & Hnone).
  congruence.
Qed.

Lemma execute_loop_not_blocked (n : nat) :
  forall (d : float) (w : World), pool w <> [] -> snd (loop n d w) <> Blocked.
Proof.
  induction n as [|n IH]; intros d w Hp; [discriminate|].
  unfold loop. rewrite execute_loop_step. fold loop. fold attempt'.
  destruct (attempt_pool d w) as (Hblk & _ & Hne).
  destruct (attempt_facts cfg drv sql params fetch want_lastrowid d w)
    as (_ & _ & _ & Hconn & _).
  fold attempt' in Hconn.
  destruct (att_raised (attempt' d w)); [discriminate|].
  destruct (att_body (attempt' d w)) as [v|e|] eqn:Hbody.
  - discriminate.
  - destruct (is_OperationalError e) eqn:He; cbn [snd]; [|discriminate].
    apply IH. destruct (Hconn e eq_refl) as [c Hc].
    + destruct e; try discriminate. reflexivity.
    + now apply (Hne c).
  - exfalso. apply Hp. apply Hblk. reflexivity.
Qed.

Lemma execute_loop_pool (n : nat) :
  forall (d : float) (w : World),
    (List.length (pool (last (map att_final (fst (loop n d w))) w))
     <= List.length (pool w))%nat.
Proof.
  induction n as [|n IH]; intros d w; [simpl; lia|].
  unfold loop. rewrite execute_loop_step. fold loop. fold attempt'.
  destruct (attempt_pool d w) as (_ & Hlen & _).
  destruct (att_raised (attempt' d w)); [cbn [fst map last]; lia|].
  destruct (att_body (attempt' d w)) as [v|e|]; cbn [fst map last]; try lia.
  destruct (is_OperationalError e); cbn [fst map]; [|cbn [last]; lia].
  rewrite last_cons_default.
  specialize (IH (d * retry_backoff_base cfg)%float (att_final (attempt' d w))). lia.
Qed.

(** In a run that comes to an end, [time.sleep] is called once per
    attempt at [execute]'s site, with the delays of the schedule. *)
Lemma execute_loop_sleep_calls (n : nat) :
  forall (d : float) (w : World),
    snd (loop n d w) <> Blocked ->
    sleep_calls_at InExecute (flat_map att_events (fst (loop n d w)))
    = backoff_delays base (List.length (fst (loop n d w))) d.
Proof.
  induction n as [|n IH]; intros d w; [reflexivity|].
  unfold loop. rewrite execute_loop_step. fold loop. fold attempt'.
  pose proof (attempt_sleep_calls cfg drv sql params fetch want_lastrowid d w) as Hs.
  pose proof (attempt_raised_not_blocked d w) as Hnb.
  fold attempt' in Hs.
  destruct (att_raised (attempt' d w)) as [e'|].
  - intros _. cbn [fst flat_map List.length backoff_delays].
    rewrite app_nil_r. apply Hs. now apply (Hnb e').
  - destruct (att_body (attempt' d w)) as [v|e|] eqn:Hbody.
    + intros _. cbn [fst flat_map List.length backoff_delays].
      rewrite app_nil_r. apply Hs. discriminate.
    + destruct (is_OperationalError e); cbn [fst snd].
      * intros H. cbn [flat_map List.length backoff_delays].
        rewrite sleep_calls_at_app, (IH _ _ H), Hs by discriminate. reflexivity.
      * intros _. cbn [flat_map List.length backoff_delays].
        rewrite app_nil_r. apply Hs. discriminate.
    + cbn [snd]. intro H. exfalso. apply H. reflexivity.
Qed.

Lemma execute_loop_shape (n : nat) :
  forall (d : float) (w : World),
    (List.length (fst (loop n d w)) <= n)%nat
    /\ exists earlier,
         Forall (fun a => connectivity_failure a /\ att_raised a = None) earlier
         /\ ((fst (loop n d w) = earlier
              /\ List.length earlier = n
              /\ snd (loop n d w) = Raise (DatabaseOperationFailed sql params))
             \/ exists a,
                  fst (loop n d w) = earlier ++ [a]
                  /\ (~ connectivity_failure a \/ att_raised a <> None)
                  /\ snd (loop n d w) = match att_raised a with
                                        | Some e' => Raise e'
                                        | None => att_body a
                                        end).
Proof.
  induction n as [|n IH]; intros d w.
  - split; [simpl; lia|]. exists []. split; [constructor|]. left. auto.
  - unfold loop. rewrite execute_loop_step. fold loop. fold attempt'.
    destruct (att_raised (attempt' d w)) as [e'|] eqn:Hra.
    + cbn [fst snd]. split; [simpl; lia|]. exists []. split; [constructor|].
      right. exists (attempt' d w). split; [reflexivity|]. rewrite Hra.
      split; [right; discriminate|reflexivity].
    + destruct (att_body (attempt' d w)) as [v|e|] eqn:Hbody.
      * cbn [fst snd]. split; [simpl; lia|]. exists []. split; [constructor|].
        right. exists (attempt' d w). split; [reflexivity|]. rewrite Hra, Hbody.
        split; [|reflexivity]. left. intros [msg Hm]. congruence.
      * destruct (is_OperationalError e) eqn:He; cbn [fst snd].
        -- destruct (IH (d * retry_backoff_base cfg)%float (att_final (attempt' d w)))
             as (Hlen & earlier & Hall & Hcases).
           split; [simpl; lia|]. exists (attempt' d w :: earlier). split.
           ++ constructor; [|exact Hall]. split; [|exact Hra].
              destruct e; try discriminate. exists msg. exact Hbody.
           ++ destruct Hcases as [(Hf & Hl & Hs)|(a & Hf & Hna & Hs)].
              ** left. rewrite Hf. simpl. auto.
              ** right. exists a. rewrite Hf. auto.
        -- split; [simpl; lia|]. exists []. split; [constructor|].
           right. exists (attempt' d w). split; [reflexivity|]. rewrite Hra, Hbody.
           split; [|reflexivity]. left.
           intros [msg Hm]. rewrite Hbody in Hm. injection Hm as ->. discriminate.
      * cbn [fst snd]. split; [simpl; lia|]. exists []. split; [constructor|].
        right. exists (attempt' d w). split; [reflexivity|]. rewrite Hra, Hbody.
        split; [|reflexivity]. left. intros [msg Hm]. congruence.
Qed.

Lemma execute_final (retries : Z) (w : World) :
  final (execute cfg drv sql params fetch want_lastrowid retries w)
  = last (map att_final
            (attempts_of cfg drv sql params fetch want_lastrowid retries w)) w.
Proof.
  unfold execute, attempts_of.
  destruct (execute_loop cfg drv sql params fetch want_lastrowid
              (Z.to_nat retries) (retry_backoff_base cfg) w); reflexivity.
Qed.

End ExecuteMore.

(** X10.  [execute] never waits on the queue when it is called with at
    least one connection queued: every attempt that is retried has put
    its connection back, or found the queue full. *)
Theorem execute_never_blocks_on_nonempty_pool
    (cfg : Config) (drv : Driver) (sql : string) (params : PyVal)
    (fetch want_lastrowid : bool) (retries : Z) (w : World) :
  pool w <> [] ->
  outcome (execute cfg drv sql params fetch want_lastrowid retries w) <> Blocked.
Proof.
  intro Hp. rewrite execute_outcome. now apply execute_loop_not_blocked.
Qed.

Lemma execute_never_blocks_on_nonempty_pool_witness :
  outcome (execute sample_cfg dropping "SELECT 1" VNone false false 3 sample_world)
  <> Blocked.
Proof.
  apply (execute_never_blocks_on_nonempty_pool
           sample_cfg dropping "SELECT 1" VNone false false 3 sample_world).
  discriminate.
Defined.

(** X11.  After [close_all_connections] the object is unusable rather
    than failing: a call of [execute] with a positive budget waits
    forever on the empty queue, before any statement is issued and
    without opening a connection. *)
Theorem execute_after_close_all_connections_blocks
    (cfg : Config) (drv : Driver) (sql : string) (params : PyVal)
    (fetch want_lastrowid : bool) (retries : Z) (w : World) :
  0 < retries ->
  let w' := final (close_all_connections w) in
  execute cfg drv sql params fetch want_lastrowid retries w' = mkRun Blocked w' [].
Proof.
  intros Hpos w'.
  assert (Hp : pool w' = []).
  { subst w'. unfold close_all_connections.
    rewrite (close_all_loop_drains (pool w) w eq_refl). reflexivity. }
  clearbody w'. unfold execute.
  destruct (Z.to_nat retries) as [|n] eqn:Hn; [lia|].
  cbn [execute_loop]. unfold attempt, try_block.
  rewrite (get_conn_blocked_run cfg drv w' Hp). reflexivity.
Qed.

Lemma execute_after_close_all_connections_blocks_witness :
  outcome (execute sample_cfg healthy "SELECT 1" VNone true false 3
             (final (close_all_connections sample_world)))
  = Blocked.
Proof.
  rewrite (execute_after_close_all_connections_blocks
             sample_cfg healthy "SELECT 1" VNone true false 3 sample_world);
    [reflexivity|lia].
Defined.

(** X12.  Every attempt of a call of [execute] that is not left
    waiting on the queue ends with one call of [time.sleep], whatever
    the result of its [try] block: the call is the last event of the
    attempt, nothing before it in the attempt is a call of [time.sleep]
    at that line, and its argument at the i-th attempt is the value
    [delay] has by then: [base] at first, multiplied by [base] after
    every attempt.  So a call that comes to an end has called
    [time.sleep] once per attempt, with the delays of the schedule. *)
Theorem execute_sleeps_after_every_attempt
    (cfg : Config) (drv : Driver) (sql : string) (params : PyVal)
    (fetch want_lastrowid : bool) (retries : Z) (w : World) :
  let r := execute cfg drv sql params fetch want_lastrowid retries w in
  let b := retry_backoff_base cfg in
  let atts := attempts_of cfg drv sql params fetch want_lastrowid retries w in
  (forall (i : nat) (a : Attempt),
      nth_error atts i = Some a ->
      att_body a <> Blocked ->
      exists pre,
        att_events a = pre ++ [sleep_event InExecute (delay_at b i b)]
        /\ sleep_calls_at InExecute pre = []
        /\ att_raised a = time_sleep_error (delay_at b i b))
  /\ (outcome r <> Blocked ->
      sleep_calls_at InExecute (events r) = backoff_delays b (List.length atts) b)
  /\ delay_at b 0 b = b
  /\ (forall i, delay_at b (S i) b = (delay_at b i b * b)%float).
Proof.
  intros r b atts. subst r atts. split; [|split; [|split]].
  - intros i a Hi Hnb. unfold attempts_of in Hi.
    destruct (execute_loop_nth cfg drv sql params fetch want_lastrowid
                _ _ _ _ _ Hi) as [w' ->].
    destruct (attempt_facts cfg drv sql params fetch want_lastrowid
                (delay_at b i b) w') as (_ & _ & Hrun & _ & _).
    destruct (Hrun Hnb) as (Hra & pre & Hev & _ & _ & Hsc).
    exists pre. auto.
  - intro Hnb. rewrite execute_outcome in Hnb. rewrite execute_events.
    unfold attempts_of.
    apply (execute_loop_sleep_calls cfg drv sql params fetch want_lastrowid _ _ _ Hnb).
  - reflexivity.
  - intro i. apply delay_at_succ.
Qed.

Lemma execute_sleeps_after_every_attempt_witness :
  sleep_calls_at InExecute
    (events (execute sample_cfg flaky "SELECT 1" VNone false false 3 sample_world))
  = [1.5; 2.25]%float.
Proof.
  destruct (execute_sleeps_after_every_attempt
              sample_cfg flaky "SELECT 1" VNone false false 3 sample_world)
    as (_ & H & _).
  rewrite H; [vm_compute; reflexivity|].
  assert (Ho : outcome (execute sample_cfg flaky "SELECT 1" VNone false false 3
                          sample_world) = Return (VBool true))
    by (vm_compute; reflexivity).
  rewrite Ho. discriminate.
Defined.

(** X13.  How a call of [execute] ends.  It makes at most [retries]
    attempts; every attempt but the last failed with a connectivity-class
    error and its call of [time.sleep] returned; and either all of them
    did, the budget is used up and the call raises
    DatabaseOperationFailed, or the last attempt ended otherwise and
    decides: when [time.sleep] raised in its [finally] clause the call
    raises that exception, and if not the call ends as the [try] block
    of that attempt did: it returns its result, or raises the very
    exception it raised. *)
Theorem execute_ends_as_its_last_attempt
    (cfg : Config) (drv : Driver) (sql : string) (params : PyVal)
    (fetch want_lastrowid : bool) (retries : Z) (w : World) :
  let r := execute cfg drv sql params fetch want_lastrowid retries w in
  let atts := attempts_of cfg drv sql params fetch want_lastrowid retries w in
  (List.length atts <= Z.to_nat retries)%nat
  /\ exists earlier,
       Forall (fun a => connectivity_failure a /\ att_raised a = None) earlier
       /\ ((atts = earlier
            /\ List.length atts = Z.to_nat retries
            /\ outcome r = Raise (DatabaseOperationFailed sql params))
           \/ exists a,
                atts = earlier ++ [a]
                /\ (~ connectivity_failure a \/ att_raised a <> None)
                /\ outcome r = match att_raised a with
                               | Some e' => Raise e'
                               | None => att_body a
                               end).
Proof.
  cbv zeta. rewrite execute_outcome. unfold attempts_of.
  destruct (execute_loop_shape cfg drv sql params fetch want_lastrowid
              (Z.to_nat retries) (retry_backoff_base cfg) w)
    as (Hlen & earlier & Hall & Hcases).
  split; [exact Hlen|]. exists earlier. split; [exact Hall|].
  destruct Hcases as [(Hf & Hl & Hs)|(a & Hf & Hna & Hs)].
  - left. rewrite Hf. auto.
  - right. exists a. auto.
Qed.

(** X14.  [execute] never grows the queue: however the call ends, at
    most as many connections are queued afterwards as before.  (Dead
    connections that [get_conn] discards are not replaced in the
    queue.) *)
Theorem execute_never_grows_pool
    (cfg : Config) (drv : Driver) (sql : string) (params : PyVal)
    (fetch want_lastrowid : bool) (retries : Z) (w : World) :
  (List.length (pool (final (execute cfg drv sql params fetch want_lastrowid
                               retries w)))
   <= List.length (pool w))%nat.
Proof.
  rewrite execute_final. unfold attempts_of. apply execute_loop_pool.
Qed.

(** ** batch_insert and batch_update *)

Section BatchMore.

Variable cfg : Config.
Variable drv : Driver.

Let one_execute (c : Call) : Prop :=
  exists w', call_run c
             = execute cfg drv (call_sql c) (call_params c) false false 3 w'.

(** When the inner loop of [batch_update] runs to its end it has called
    [execute] once per record, in order. *)
Lemma batch_update_records_returns (sql_base : string) (batch_data : list PyVal) :
  forall w,
    snd (fst (batch_update_records cfg drv sql_base batch_data w)) = Return tt ->
    map call_params (fst (fst (batch_update_records cfg drv sql_base batch_data w)))
    = batch_data
    /\ Forall (fun c => call_sql c = sql_base /\ one_execute c)
              (fst (fst (batch_update_records cfg drv sql_base batch_data w))).
Proof.
  induction batch_data as [|record rest IH]; intros w Hret.
  - simpl. auto.
  - cbn [batch_update_records] in *.
    destruct (outcome (execute cfg drv sql_base record false false 3 w))
      as [v|e|]; try discriminate.
    specialize (IH (final (execute cfg drv sql_base record false false 3 w))).
    destruct (batch_update_records cfg drv sql_base rest
                (final (execute cfg drv sql_base record false false 3 w)))
      as [[calls res] w'].
    cbn [fst snd] in *. destruct (IH Hret) as [Hp Hall].
    cbn [map call_params]. rewrite Hp. split; [reflexivity|].
    constructor; [|exact Hall].
    cbn [call_sql]. split; [reflexivity|]. unfold one_execute.
    cbn [call_sql call_params call_run]. eauto.
Qed.

Lemma batch_update_loop_returns (sql_base : string) (data : list PyVal) (bs : Z)
    (indices : list nat) :
  forall w,
    snd (batch_update_loop cfg drv sql_base data bs indices w) = Return tt ->
    map call_params (fst (batch_update_loop cfg drv sql_base data bs indices w))
    = List.concat (map (fun i => slice data i bs) indices)
    /\ Forall (fun c => call_sql c = sql_base /\ one_execute c)
              (fst (batch_update_loop cfg drv sql_base data bs indices w)).
Proof.
  induction indices as [|i indices IH]; intros w Hret.
  - simpl. auto.
  - cbn [batch_update_loop] in *.
    pose proof (batch_update_records_returns sql_base (slice data i bs) w) as Hrec.
    destruct (batch_update_records cfg drv sql_base (slice data i bs) w)
      as [[calls res] w'].
    cbn [fst snd] in Hrec.
    destruct res as [[]|e|]; try (cbn [snd] in Hret; discriminate).
    specialize (IH w').
    destruct (batch_update_loop cfg drv sql_base data bs indices w')
      as [calls' res'].
    cbn [fst snd] in *. destruct (Hrec eq_refl) as [Hp Hall].
    destruct (IH Hret) as [Hp' Hall'].
    rewrite map_app, Hp, Hp'. split; [reflexivity|].
    apply Forall_app. auto.
Qed.

(** A call of [batch_insert]'s loop that raises: the exception is the
    one raised by the last call of [execute], and every earlier call
    returned. *)
Lemma batch_insert_loop_raises (sql_base : string) (data : list PyVal) (bs : Z)
    (indices : list nat) :
  forall w e,
    snd (batch_insert_loop cfg drv sql_base data bs indices w) = Raise e ->
    exists earlier c,
      fst (batch_insert_loop cfg drv sql_base data bs indices w) = earlier ++ [c]
      /\ Forall call_returned earlier
      /\ outcome (call_run c) = Raise e.
Proof.
  induction indices as [|i indices IH]; intros w e Hret; [discriminate|].
  cbn [batch_insert_loop] in *.
  destruct (outcome (execute cfg drv sql_base (VList (slice data i bs))
                       false false 3 w)) as [v|e0|] eqn:Ho.
  - specialize (IH (final (execute cfg drv sql_base (VList (slice data i bs))
                             false false 3 w)) e).
    destruct (batch_insert_loop cfg drv sql_base data bs indices
                (final (execute cfg drv sql_base (VList (slice data i bs))
                          false false 3 w))) as [calls res].
    cbn [fst snd] in *. destruct (IH Hret) as (earlier & c & Hc & Hall & Hlast).
    exists (mkCall sql_base (VList (slice data i bs))
                   (execute cfg drv sql_base (VList (slice data i bs))
                            false false 3 w) :: earlier), c.
    rewrite Hc. split; [reflexivity|]. split; [|exact Hlast].
    constructor; [|exact Hall]. exists v. exact Ho.
  - cbn [fst snd] in *. injection Hret as ->.
    exists [], (mkCall sql_base (VList (slice data i bs))
                       (execute cfg drv sql_base (VList (slice data i bs))
                                false false 3 w)).
    split; [reflexivity|]. split; [constructor|exact Ho].
  - discriminate.
Qed.

(** The parameters of the calls made are those of the first indices. *)
Lemma batch_insert_loop_prefix (sql_base : string) (data : list PyVal) (bs : Z)
    (indices : list nat) :
  forall w,
    exists k,
      map call_params (fst (batch_insert_loop cfg drv sql_base data bs indices w))
      = map (fun i => VList (slice data i bs)) (firstn k indices).
Proof.
  induction indices as [|i indices IH]; intros w.
  - exists O. reflexivity.
  - cbn [batch_insert_loop].
    destruct (outcome (execute cfg drv sql_base (VList (slice data i bs))
                         false false 3 w)) as [v|e0|].
    + destruct (IH (final (execute cfg drv sql_base (VList (slice data i bs))
                             false false 3 w))) as [k Hk].
      destruct (batch_insert_loop cfg drv sql_base data bs indices
                  (final (execute cfg drv sql_base (VList (slice data i bs))
                            false false 3 w))) as [calls res].
      cbn [fst] in *. exists (S k). cbn [map call_params firstn]. rewrite Hk.
      reflexivity.
    + exists 1%nat. reflexivity.
    + exists 1%nat. reflexivity.
Qed.

End BatchMore.

(** X15.  For a positive [batch_size], when [batch_update] returns it
    has made exactly one call of [execute] per record, in the order of
    the records, each with the UPDATE statement and that record as its
    parameters: the batches only group the records, they do not group
    the calls. *)
Theorem batch_update_one_call_per_record
    (cfg : Config) (drv : Driver) (table_name : string) (columns : list string)
    (data_list : list PyVal) (where_column : string) (batch_size : Z) (w : World) :
  0 < batch_size ->
  snd (batch_update cfg drv table_name columns data_list where_column batch_size w)
  = Return tt ->
  let calls :=
    fst (batch_update cfg drv table_name columns data_list where_column
           batch_size w) in
  map call_params calls = data_list
  /\ List.length calls = List.length data_list
  /\ Forall (fun c =>
               call_sql c = update_sql table_name columns where_column
               /\ exists w', call_run c
                             = execute cfg drv (call_sql c) (call_params c)
                                       false false 3 w')
            calls.
Proof.
  intros Hpos Hret calls. subst calls.
  unfold batch_update, py_range in *.
  destruct (batch_size =? 0) eqn:H0; [apply Z.eqb_eq in H0; lia|].
  destruct (batch_size <? 0) eqn:Hneg; [apply Z.ltb_lt in Hneg; lia|].
  destruct (batch_update_loop_returns cfg drv _ _ _ _ _ Hret) as [Hp Hall].
  assert (Hdata : map call_params
                    (fst (batch_update_loop cfg drv
                            (update_sql table_name columns where_column)
                            data_list batch_size
                            (range_loop (List.length data_list) 0
                               (List.length data_list) (Z.to_nat batch_size)) w))
                  = data_list).
  { rewrite Hp. unfold slice.
    rewrite (chunks_concat data_list (Z.to_nat batch_size) ltac:(lia)) by lia.
    reflexivity. }
  split; [exact Hdata|]. split; [|exact Hall].
  pose proof (f_equal (@List.length PyVal) Hdata) as Hlen.
  rewrite length_map in Hlen. exact Hlen.
Qed.

Lemma batch_update_one_call_per_record_witness :
  map call_params
      (fst (batch_update sample_cfg healthy "t" ["c1"]%string five_records "id" 2
              sample_world))
  = five_records.
Proof.
  destruct (batch_update_one_call_per_record sample_cfg healthy "t" ["c1"]%string
              five_records "id" 2 sample_world) as (H & _ & _).
  - lia.
  - vm_compute. reflexivity.
  - exact H.
Defined.

(** X16.  A failing chunk ends [batch_insert]: when it raises (for a
    positive [batch_size]), the exception is the one raised by the last
    call of [execute] it made, every earlier call returned, and the rows
    sent so far are a prefix of the records: the later chunks were never
    sent and nothing is rolled back. *)
Theorem batch_insert_stops_at_first_failure
    (cfg : Config) (drv : Driver) (table_name : string) (columns : list string)
    (data_list : list PyVal) (batch_size : Z) (w : World) (e : Exn) :
  0 < batch_size ->
  snd (batch_insert cfg drv table_name columns data_list batch_size w) = Raise e ->
  let calls := fst (batch_insert cfg drv table_name columns data_list batch_size w) in
  exists earlier c,
    calls = earlier ++ [c]
    /\ Forall call_returned earlier
    /\ outcome (call_run c) = Raise e
    /\ exists rest, List.concat (map call_rows calls) ++ rest = data_list.
Proof.
  intros Hpos Hret calls. subst calls.
  unfold batch_insert, py_range in *.
  destruct (batch_size =? 0) eqn:H0; [apply Z.eqb_eq in H0; lia|].
  destruct (batch_size <? 0) eqn:Hneg; [apply Z.ltb_lt in Hneg; lia|].
  set (indices := range_loop (List.length data_list) 0 (List.length data_list)
                    (Z.to_nat batch_size)) in *.
  destruct (batch_insert_loop_raises cfg drv _ _ _ _ _ _ Hret)
    as (earlier & c & Hc & Hall & Hlast).
  exists earlier, c. split; [exact Hc|]. split; [exact Hall|].
  split; [exact Hlast|].
  destruct (batch_insert_loop_prefix cfg drv (insert_sql table_name columns)
              data_list batch_size indices w) as [k Hk].
  exists (List.concat (map (fun i => slice data_list i batch_size)
                           (skipn k indices))).
  assert (Hrows : map call_rows
                    (fst (batch_insert_loop cfg drv (insert_sql table_name columns)
                            data_list batch_size indices w))
                  = map (fun i => slice data_list i batch_size) (firstn k indices)).
  { transitivity (map (fun p => match p with VList rows => rows | _ => [] end)
                      (map call_params
                           (fst (batch_insert_loop cfg drv
                                   (insert_sql table_name columns)
                                   data_list batch_size indices w)))).
    - rewrite map_map. reflexivity.
    - rewrite Hk, map_map. reflexivity. }
  rewrite Hrows, <- concat_app, <- map_app, firstn_skipn.
  unfold indices, slice.
  rewrite (chunks_concat data_list (Z.to_nat batch_size) ltac:(lia)) by lia.
  reflexivity.
Qed.

Lemma batch_insert_stops_at_first_failure_witness :
  exists earlier c,
    fst (batch_insert sample_cfg second_rejected "t" ["c1"; "c2"]%string
           five_records 2 sample_world) = earlier ++ [c]
    /\ List.length earlier = 1%nat
    /\ outcome (call_run c) = Raise (OtherMySQLError "1062").
Proof.
  destruct (batch_insert_stops_at_first_failure sample_cfg second_rejected
              "t" ["c1"; "c2"]%string five_records 2 sample_world
              (OtherMySQLError "1062")) as (earlier & c & Hc & _ & Hlast & _).
  - lia.
  - vm_compute. reflexivity.
  - exists earlier, c. split; [exact Hc|]. split; [|exact Hlast].
    assert (Hlen : List.length
                     (fst (batch_insert sample_cfg second_rejected "t"
                             ["c1"; "c2"]%string five_records 2 sample_world))
                   = 2%nat) by (vm_compute; reflexivity).
    apply (f_equal (@List.length Call)) in Hc.
    rewrite Hlen, length_app in Hc. cbn [List.length] in Hc. lia.
Defined.

(** X17.  A [batch_size] that is not positive inserts nothing, whatever
    the records: with 0 the call raises ValueError (from [range]) before
    any call of [execute]; with a negative value it returns normally
    without having called [execute] at all. *)
Theorem batch_insert_nonpositive_batch_size
    (cfg : Config) (drv : Driver) (table_name : string) (columns : list string)
    (data_list : list PyVal) (batch_size : Z) (w : World) :
  batch_size <= 0 ->
  fst (batch_insert cfg drv table_name columns data_list batch_size w) = []
  /\ (batch_size = 0 ->
      snd (batch_insert cfg drv table_name columns data_list batch_size w)
      = Raise (OtherException "ValueError"))
  /\ (batch_size < 0 ->
      snd (batch_insert cfg drv table_name columns data_list batch_size w)
      = Return tt).
Proof.
  intro Hle. unfold batch_insert, py_range.
  destruct (batch_size =? 0) eqn:H0.
  - apply Z.eqb_eq in H0. cbn [fst snd]. repeat split; auto. lia.
  - apply Z.eqb_neq in H0.
    destruct (batch_size <? 0) eqn:Hneg; [|apply Z.ltb_ge in Hneg; lia].
    cbn [batch_insert_loop fst snd]. repeat split; auto. contradiction.
Qed.

Lemma batch_insert_nonpositive_batch_size_witness :
  batch_insert sample_cfg healthy "t" ["c1"; "c2"]%string five_records (-1)
    sample_world
  = ([], Return tt).
Proof.
  destruct (batch_insert_nonpositive_batch_size sample_cfg healthy "t"
              ["c1"; "c2"]%string five_records (-1) sample_world)
    as (Hc & _ & Hr); [lia|].
  specialize (Hr ltac:(lia)).
  destruct (batch_insert sample_cfg healthy "t" ["c1"; "c2"]%string five_records
              (-1) sample_world) as [calls res].
  cbn [fst snd] in *. subst. reflexivity.
Defined.
